(** * Jarvis voice assistant: command dispatch, song lookup and speech chunking

    A shallow embedding of [main.py].  Python [str] values are modelled as
    [string]s whose characters are the code points U+0000..U+00FF; the
    collaborators (browser launcher, the two speech back ends, the news
    HTTP service, the chat service) are oracles of an environment record,
    and every call to one of them is recorded in a trace. *)

From Stdlib Require Import List Bool Arith ZArith Lia Ascii String.
From Stdlib Require Import Numbers.DecimalString.
Import ListNotations.
Local Open Scope string_scope.
Local Open Scope list_scope.
Local Set Warnings "-register-all".

(** ** Python string primitives used by the program *)

Module PyStr.

(** [str.isspace] on one character, for code points below 256:
    TAB..CR, FS..US, SPACE, NEL and NBSP. *)
Definition isspace (c : ascii) : bool :=
  let n := nat_of_ascii c in
  (((9 <=? n) && (n <=? 13)) || ((28 <=? n) && (n <=? 32))
   || (n =? 133) || (n =? 160))%nat.

(** [str.lower] on one character, for code points below 256: A..Z and the
    Latin-1 capitals U+00C0..U+00DE (the multiplication sign U+00D7 apart)
    move up by 32. *)
Definition lower_char (c : ascii) : ascii :=
  let n := nat_of_ascii c in
  if (((65 <=? n) && (n <=? 90))
      || ((192 <=? n) && (n <=? 222) && negb (n =? 215)))%nat
  then ascii_of_nat (n + 32) else c.

Fixpoint lower (s : string) : string :=
  match s with
  | EmptyString => EmptyString
  | String c s' => String (lower_char c) (lower s')
  end.

(** Truth value of a string: [not s] holds exactly for the empty string. *)
Definition is_empty (s : string) : bool :=
  match s with EmptyString => true | String _ _ => false end.

Fixpoint lstrip (s : string) : string :=
  match s with
  | EmptyString => EmptyString
  | String c s' => if isspace c then lstrip s' else s
  end.

Fixpoint rstrip (s : string) : string :=
  match s with
  | EmptyString => EmptyString
  | String c s' =>
      let r := rstrip s' in
      if isspace c && is_empty r then EmptyString else String c r
  end.

(** [s.strip()] *)
Definition strip (s : string) : string := rstrip (lstrip s).

Definition cons_word (w : string) (ws : list string) : list string :=
  if is_empty w then ws else w :: ws.

(** One right-to-left pass of [s.split()]: the word being read at the head
    of [s] (empty when [s] starts with whitespace) and the words after it. *)
Fixpoint split_go (s : string) : string * list string :=
  match s with
  | EmptyString => (EmptyString, [])
  | String c s' =>
      let (w, ws) := split_go s' in
      if isspace c then (EmptyString, cons_word w ws) else (String c w, ws)
  end.

(** [s.split()]: the maximal runs of non-whitespace characters, in order. *)
Definition split (s : string) : list string :=
  let (w, ws) := split_go s in cons_word w ws.

(** [s.split(d)] for a one-character separator [d]: empty fields are kept,
    and the result is never the empty list. *)
Fixpoint split_on (d : ascii) (s : string) : list string :=
  match s with
  | EmptyString => [EmptyString]
  | String c s' =>
      if Ascii.eqb c d then EmptyString :: split_on d s'
      else match split_on d s' with
           | w :: ws => String c w :: ws
           | [] => [String c EmptyString]
           end
  end.

(** [sep.join(ws)] *)
Fixpoint join (sep : string) (ws : list string) : string :=
  match ws with
  | [] => EmptyString
  | [w] => w
  | w :: ws' => (w ++ sep ++ join sep ws')%string
  end.

(** [s.startswith(p)] *)
Fixpoint startswith (s p : string) {struct p} : bool :=
  match p, s with
  | EmptyString, _ => true
  | String _ _, EmptyString => false
  | String a p', String b s' => Ascii.eqb a b && startswith s' p'
  end.

(** [sub in s] *)
Fixpoint str_in (sub s : string) : bool :=
  startswith s sub
  || match s with
     | EmptyString => false
     | String _ s' => str_in sub s'
     end.

Definition count_left (count : option nat) : bool :=
  match count with Some O => false | _ => true end.

Definition count_dec (count : option nat) : option nat :=
  match count with Some n => Some (pred n) | None => None end.

(** [s.replace(old, new)] ([count = None]) and [s.replace(old, new, n)]
    ([count = Some n]) for a non-empty [old]: occurrences are replaced from
    the left and do not overlap; [skip] is the number of characters of the
    occurrence just replaced that are still to be passed over. *)
Fixpoint replace_go (old new : string) (count : option nat) (skip : nat)
    (s : string) : string :=
  match s with
  | EmptyString => EmptyString
  | String c s' =>
      match skip with
      | S k => replace_go old new count k s'
      | O =>
          if count_left count && startswith s old
          then (new ++ replace_go old new (count_dec count)
                         (pred (String.length old)) s')%string
          else String c (replace_go old new count 0 s')
      end
  end.

Definition replace (old new : string) (count : option nat) (s : string)
    : string :=
  replace_go old new count 0 s.

End PyStr.

Import PyStr.

(** [normalize_key]: lower-case, trim, split on whitespace, join with one
    space. *)
Definition normalize_key (s : string) : string :=
  join " " (split (strip (lower s))).

(** ** Values, exceptions and the trace of collaborator calls *)

(** The Python values that reach the program from the news service's JSON
    body.  Of a number only its being zero or not matters here. *)
Inductive pyval : Type :=
| PNone
| PBool (b : bool)
| PNum (z : Z)
| PStr (s : string)
| PList (items : list pyval)
| PDict (entries : list (string * pyval)).

(** Truth value of a Python object, as tested by [if not x]. *)
Definition truthy (v : pyval) : bool :=
  match v with
  | PNone => false
  | PBool b => b
  | PNum z => negb (z =? 0)%Z
  | PStr s => negb (is_empty s)
  | PList items => match items with [] => false | _ => true end
  | PDict entries => match entries with [] => false | _ => true end
  end.

(** An exception of class [Exception] or below, named by its class.  These
    are the exceptions every [except Exception] of the program catches. *)
Inductive exn : Type := Exception (cls : string).

Inductive event : Type :=
| BrowserOpen (url : string)
| PrimaryTTS (text : string)
| FallbackTTS (text : string)
| HttpGet (url : string) (timeout : Z)
| ChatCompletion (model system user : string) (max_tokens : Z)
| Sleep (milliseconds : Z)
| Print (msg : string)
| PrintExc.

Definition trace := list event.

Inductive http_outcome : Type :=
| HttpRaises (e : exn)
| HttpResponse (status_code : Z) (json : option pyval).

Inductive chat_outcome : Type :=
| ClientRaises (e : exn)
| ChatRaises (e : exn)
| ChatContent (content : option string).

(** The module-level configuration and the collaborators.  An oracle sees
    the calls made so far, so its answer may change from call to call.
    [music] is [None] when [musicLibrary] failed to import or has no
    attribute [music]; otherwise it is the dict, in iteration order.
    In [HttpResponse], [json = None] stands for a body [r.json()] rejects;
    [ClientRaises] stands for [OpenAI(api_key=...)] raising, in which case
    no request is sent; [ChatRaises] for any failure from the call of
    [chat.completions.create] to reading [choices[0].message.content];
    [ChatContent None] for a [content] that is [None]. *)
Record Env : Type := {
  OPENAI_API_KEY : option string;
  NEWS_API_KEY : option string;
  OpenAI : bool;
  music : option (list (string * string));
  webbrowser_open_fails : trace -> string -> option exn;
  gtts_pygame_fails : trace -> string -> option exn;
  pyttsx3_fails : trace -> string -> option exn;
  requests_get : trace -> string -> http_outcome;
  chat_completions_create : trace -> string -> string -> chat_outcome
}.

(** ** The monad of the embedding: history in, result and new events out *)

Inductive result (A : Type) : Type :=
| Return (a : A)
| Raise (e : exn).
Arguments Return {A} a.
Arguments Raise {A} e.

Definition M (A : Type) : Type := trace -> result A * trace.

Definition ret {A : Type} (a : A) : M A := fun _ => (Return a, []).

Definition raise {A : Type} (e : exn) : M A := fun _ => (Raise e, []).

Definition bind {A B : Type} (m : M A) (f : A -> M B) : M B :=
  fun h =>
    match m h with
    | (Return a, o) => let (r, o') := f a (h ++ o) in (r, o ++ o')
    | (Raise e, o) => (Raise e, o)
    end.

(** [try: m  except Exception as e: handler e] *)
Definition try_except {A : Type} (m : M A) (handler : exn -> M A) : M A :=
  fun h =>
    match m h with
    | (Return a, o) => (Return a, o)
    | (Raise e, o) => let (r, o') := handler e (h ++ o) in (r, o ++ o')
    end.

(** A call that only leaves an event. *)
Definition emit (ev : event) : M unit := fun _ => (Return tt, [ev]).

(** A collaborator call: the event is recorded and the oracle, asked with
    the history before the call, says whether the call raises. *)
Definition call (ev : event) (fails : trace -> option exn) : M unit :=
  fun h =>
    (match fails h with None => Return tt | Some e => Raise e end, [ev]).

Declare Scope py_scope.
Delimit Scope py_scope with py.
Notation "x <- m ;; k" := (bind m (fun x => k))
  (at level 61, m at next level, right associativity) : py_scope.
Notation "m ;; k" := (bind m (fun _ => k))
  (at level 61, right associativity) : py_scope.
Local Open Scope py_scope.

(** [for x in l: body x] *)
Fixpoint for_each {A : Type} (l : list A) (body : A -> M unit) : M unit :=
  match l with
  | [] => ret tt
  | x :: l' => body x ;; for_each l' body
  end.

(** [[f x for x in l]] *)
Fixpoint map_M {A B : Type} (f : A -> M B) (l : list A) : M (list B) :=
  match l with
  | [] => ret []
  | x :: l' => y <- f x ;; ys <- map_M f l' ;; ret (y :: ys)
  end.

(** What a run did: the chunks handed to the primary synthesis path, the
    URLs handed to the browser, the URLs fetched. *)
Definition synthesized (t : trace) : list string :=
  flat_map (fun ev => match ev with PrimaryTTS s => [s] | _ => [] end) t.

Definition fallback_calls (t : trace) : list string :=
  flat_map (fun ev => match ev with FallbackTTS s => [s] | _ => [] end) t.

Definition opened (t : trace) : list string :=
  flat_map (fun ev => match ev with BrowserOpen u => [u] | _ => [] end) t.

Definition fetched (t : trace) : list string :=
  flat_map (fun ev => match ev with HttpGet u _ => [u] | _ => [] end) t.

(** ** Python object protocol, as far as [get_headlines] needs it *)

Definition dict_lookup {V : Type} (d : list (string * V)) (k : string)
    : option V :=
  match find (fun kv => String.eqb (fst kv) k) d with
  | Some kv => Some (snd kv)
  | None => None
  end.

(** [k in d] *)
Definition dict_mem {V : Type} (k : string) (d : list (string * V)) : bool :=
  match dict_lookup d k with Some _ => true | None => false end.

(** The keys of [d] in iteration order. *)
Definition keys {V : Type} (d : list (string * V)) : list string :=
  map fst d.

(** [d[k]] *)
Definition getitem {V : Type} (d : list (string * V)) (k : string) : M V :=
  match dict_lookup d k with
  | Some v => ret v
  | None => raise (Exception "KeyError")
  end.

(** [x.get(k, default)]: only a dict has the method. *)
Definition py_get (x : pyval) (k : string) (default : pyval) : M pyval :=
  match x with
  | PDict d =>
      ret (match dict_lookup d k with Some v => v | None => default end)
  | _ => raise (Exception "AttributeError")
  end.

Fixpoint chars (s : string) : list pyval :=
  match s with
  | EmptyString => []
  | String c s' => PStr (String c EmptyString) :: chars s'
  end.

(** [for a in x]: a list yields its items, a string its characters, a dict
    its keys; nothing else is iterable. *)
Definition py_iter (x : pyval) : M (list pyval) :=
  match x with
  | PList items => ret items
  | PStr s => ret (chars s)
  | PDict d => ret (map (fun kv => PStr (fst kv)) d)
  | _ => raise (Exception "TypeError")
  end.

(** [str(n)] for an int, as an f-string formats it. *)
Definition str_of_int (n : Z) : string :=
  NilZero.string_of_int (Z.to_int n).

(** ** The program *)

Section Jarvis.

Variable env : Env.

Definition webbrowser_open (url : string) : M unit :=
  call (BrowserOpen url) (fun h => webbrowser_open_fails env h url).

(** The body of the [try] of [speak_with_pygame]: synthesis with gTTS,
    saving [tmp_tts.mp3], playing it with pygame until the mixer is idle
    and removing the file, taken as one step that completes or raises. *)
Definition gtts_pygame (text : string) : M unit :=
  call (PrimaryTTS text) (fun h => gtts_pygame_fails env h text).

(** [pytt_engine.say(text)] followed by [pytt_engine.runAndWait()]. *)
Definition pyttsx3_say (text : string) : M unit :=
  call (FallbackTTS text) (fun h => pyttsx3_fails env h text).

Definition print (msg : string) : M unit := emit (Print msg).

Definition print_exc : M unit := emit PrintExc.

Definition sleep (milliseconds : Z) : M unit := emit (Sleep milliseconds).

Definition speak_with_pygame (text : string) : M unit :=
  try_except (gtts_pygame text)
    (fun _ =>
       print "gTTS/pygame failed, falling back to pyttsx3:" ;;
       try_except (pyttsx3_say text)
         (fun _ => print "pytt fallback also failed:")).

(** [[c.strip() for c in text.split(".") if c.strip()]] *)
Definition chunks (text : string) : list string :=
  map strip
    (filter (fun c => negb (is_empty (strip c))) (split_on "."%char text)).

Definition speak (text : string) : M unit :=
  if is_empty text then ret tt
  else for_each (chunks text)
         (fun chunk => speak_with_pygame (chunk ++ ".")%string).

(** [speak] called on an arbitrary object, as the news branch does with
    the titles of the service: a falsy object returns at once, a string is
    spoken, any other object has no [split]. *)
Definition speak_obj (text : pyval) : M unit :=
  if negb (truthy text) then ret tt
  else match text with
       | PStr s => speak s
       | _ => raise (Exception "AttributeError")
       end.

Definition system_prompt : string :=
  "You are Jarvis, a virtual assistant and you are skilled in general tasks like alexa and google home.".

Definition aiProcess (command : string) : M string :=
  match OPENAI_API_KEY env, OpenAI env with
  | Some key, true =>
      try_except
        (fun h =>
           match chat_completions_create env h key command with
           | ChatContent (Some content) =>
               (Return (strip content),
                [ChatCompletion "gpt-5" system_prompt command 250])
           | ChatContent None =>
               (Raise (Exception "AttributeError"),
                [ChatCompletion "gpt-5" system_prompt command 250])
           | ChatRaises e =>
               (Raise e, [ChatCompletion "gpt-5" system_prompt command 250])
           | ClientRaises e => (Raise e, [])
           end)
        (fun _ =>
           print "Error calling OpenAI:" ;;
           print_exc ;;
           ret "Sorry, I couldn't reach the AI service.")
  | _, _ =>
      ret "AI not configured. Please set OPENAI_API_KEY in client.py and install openai package."
  end.

(** [requests.get(url, timeout=8)]: the response, or the exception. *)
Definition requests_get_call (url : string) : M (Z * option pyval) :=
  fun h =>
    match requests_get env h url with
    | HttpResponse status body => (Return (status, body), [HttpGet url 8])
    | HttpRaises e => (Raise e, [HttpGet url 8])
    end.

(** [r.json()] *)
Definition response_json (body : option pyval) : M pyval :=
  match body with
  | Some data => ret data
  | None => raise (Exception "JSONDecodeError")
  end.

Definition get_headlines (country page_size : pyval) : M (list pyval) :=
  match NEWS_API_KEY env with
  | None | Some EmptyString =>
      ret [PStr "News API key not configured. Put NEWS_API_KEY in client.py."]
  | Some key =>
      try_except
        (let url :=
           ("https://newsapi.org/v2/top-headlines?country=in&apiKey=" ++ key)%string in
         r <- requests_get_call url ;;
         if negb (fst r =? 200)%Z then
           print "News API HTTP" ;;
           ret [PStr ("Failed to fetch news: HTTP " ++ str_of_int (fst r))%string]
         else
           data <- response_json (snd r) ;;
           articles <- py_get data "articles" (PList []) ;;
           if negb (truthy articles) then ret [PStr "No news articles found."]
           else
             items <- py_iter articles ;;
             map_M (fun a => py_get a "title" (PStr "Untitled")) items)
        (fun _ =>
           print "Exception fetching news:" ;;
           ret [PStr "Error fetching news."])
  end.

(** The last step of [handle_play_command]: a video search on the web. *)
Definition search_youtube (remainder : string) : M unit :=
  let query := replace " " "+" None remainder in
  let url := ("https://www.youtube.com/results?search_query=" ++ query)%string in
  webbrowser_open url ;;
  speak ("Couldn't find the exact song locally. Searching YouTube for "
         ++ remainder ++ ".")%string.

(** The text a play command leaves once its first "play" is taken out. *)
Definition play_remainder (command_text : string) : string :=
  strip (replace "play" "" (Some 1) (lower command_text)).

Definition handle_play_command (command_text : string) : M unit :=
  let remainder := play_remainder command_text in
  if is_empty remainder then speak "Which song should I play?"
  else if startswith remainder "http://" || startswith remainder "https://"
  then webbrowser_open remainder ;; speak "Playing from URL."
  else
    match music env with
    | Some library =>
        let key := normalize_key remainder in
        if dict_mem key library then
          url <- getitem library key ;;
          webbrowser_open url ;;
          speak ("Playing " ++ remainder ++ ".")%string
        else
          match find (fun k => str_in key k) (keys library) with
          | Some k =>
              url <- getitem library k ;;
              webbrowser_open url ;;
              speak ("Playing " ++ k ++ ".")%string
          | None =>
              match find (fun k => startswith k key) (keys library) with
              | Some k =>
                  url <- getitem library k ;;
                  webbrowser_open url ;;
                  speak ("Playing " ++ k ++ ".")%string
              | None => search_youtube remainder
              end
          end
    | None => search_youtube remainder
    end.

(** The branches of [processCommand], inside its [try]. *)
Definition dispatch (c : string) : M unit :=
  let lower_c := lower c in
  if str_in "open google" lower_c then
    webbrowser_open "https://google.com" ;; speak "Opening Google."
  else if str_in "open facebook" lower_c then
    webbrowser_open "https://facebook.com" ;; speak "Opening Facebook."
  else if str_in "open youtube" lower_c then
    webbrowser_open "https://youtube.com" ;; speak "Opening YouTube."
  else if str_in "open linkedin" lower_c then
    webbrowser_open "https://linkedin.com" ;; speak "Opening LinkedIn."
  else if startswith lower_c "play" then handle_play_command c
  else if str_in "news" lower_c then
    speak "Fetching the top headlines." ;;
    headlines <- get_headlines (PStr "in") (PNum 5) ;;
    for_each headlines (fun h => speak_obj h ;; sleep 200)
  else
    speak "Let me check." ;;
    answer <- aiProcess c ;;
    speak answer.

Definition apology : string :=
  "Sorry, I encountered an error while processing the command.".

Definition processCommand (c : string) : M unit :=
  let c := strip c in
  if is_empty c then ret tt
  else
    try_except (dispatch c)
      (fun _ =>
         print "Error in processCommand:" ;;
         print_exc ;;
         speak apology).

End Jarvis.

(** ** Reading the dispatcher as a classifier *)

(** The intents of the dispatcher: the seven branches of [dispatch], the
    four sites sharing one constructor. *)
Inductive intent : Type :=
| OpenSite (url reply : string)
| PlayMusic
| FetchNews
| AskAI.

(** The branch [dispatch] takes on a lower-cased command. *)
Definition classify (lower_c : string) : intent :=
  if str_in "open google" lower_c then
    OpenSite "https://google.com" "Opening Google."
  else if str_in "open facebook" lower_c then
    OpenSite "https://facebook.com" "Opening Facebook."
  else if str_in "open youtube" lower_c then
    OpenSite "https://youtube.com" "Opening YouTube."
  else if str_in "open linkedin" lower_c then
    OpenSite "https://linkedin.com" "Opening LinkedIn."
  else if startswith lower_c "play" then PlayMusic
  else if str_in "news" lower_c then FetchNews
  else AskAI.

(** ** The specification's wording, where it is compared with the code *)

(** "The command text after stripping play, preserved as given": the first
    "play" is taken out of the text as it was heard, and the rest trimmed. *)
Definition remainder_as_given (command_text : string) : string :=
  strip (replace "play" "" (Some 1) command_text).

(** "Removing the leading play token (a whole word)": the four letters go
    only when they are the whole first word of the lower-cased command. *)
Definition remainder_whole_word (command_text : string) : string :=
  match split (lower command_text) with
  | w :: _ =>
      if String.eqb w "play"
      then strip (replace "play" "" (Some 1) (lower command_text))
      else strip (lower command_text)
  | [] => EmptyString
  end.

(** "The query's words joined by the single character +". *)
Definition plus_joined_words (remainder : string) : string :=
  join "+" (split remainder).

(** Every space of [s] turned into a plus sign, the other characters kept. *)
Fixpoint spaces_to_plus (s : string) : string :=
  match s with
  | EmptyString => EmptyString
  | String c s' =>
      String (if Ascii.eqb c " " then "+"%char else c) (spaces_to_plus s')
  end.

(** A string without the space character. *)
Fixpoint no_space (s : string) : bool :=
  match s with
  | EmptyString => true
  | String c s' => negb (Ascii.eqb c " ") && no_space s'
  end.

(** A string without whitespace, and a word: such a string, not empty. *)
Fixpoint no_ws (s : string) : bool :=
  match s with
  | EmptyString => true
  | String c s' => negb (isspace c) && no_ws s'
  end.

Definition is_word (w : string) : bool := negb (is_empty w) && no_ws w.

(** No exact, contains or starts-with match for [key] in the catalog. *)
Definition no_local_match (env : Env) (key : string) : Prop :=
  match music env with
  | None => True
  | Some library =>
      dict_mem key library = false
      /\ (forall k, In k (keys library) -> str_in key k = false)
      /\ (forall k, In k (keys library) -> startswith k key = false)
  end.

Definition fallback_notice : string :=
  "gTTS/pygame failed, falling back to pyttsx3:".

Definition is_dict (v : pyval) : bool :=
  match v with PDict _ => true | _ => false end.

(** The headline an article object contributes: its "title" entry, or
    "Untitled" when it has none. *)
Definition title_of (a : pyval) : pyval :=
  match a with
  | PDict entries =>
      match dict_lookup entries "title" with
      | Some v => v
      | None => PStr "Untitled"
      end
  | _ => PNone
  end.

Definition news_url (key : string) : string :=
  ("https://newsapi.org/v2/top-headlines?country=in&apiKey=" ++ key)%string.

Definition config_missing : string :=
  "News API key not configured. Put NEWS_API_KEY in client.py.".

(** ** Environments used in the examples *)

Definition never : trace -> string -> option exn := fun _ _ => None.

Definition always (cls : string) : trace -> string -> option exn :=
  fun _ _ => Some (Exception cls).

(** Nothing configured, no catalog, no network; browser and speech work. *)
Definition bare : Env := {|
  OPENAI_API_KEY := None;
  NEWS_API_KEY := None;
  OpenAI := false;
  music := None;
  webbrowser_open_fails := never;
  gtts_pygame_fails := never;
  pyttsx3_fails := never;
  requests_get := fun _ _ => HttpRaises (Exception "ConnectionError");
  chat_completions_create :=
    fun _ _ _ => ChatRaises (Exception "APIConnectionError")
|}.

Definition with_music (library : list (string * string)) (e : Env) : Env := {|
  OPENAI_API_KEY := OPENAI_API_KEY e;
  NEWS_API_KEY := NEWS_API_KEY e;
  OpenAI := OpenAI e;
  music := Some library;
  webbrowser_open_fails := webbrowser_open_fails e;
  gtts_pygame_fails := gtts_pygame_fails e;
  pyttsx3_fails := pyttsx3_fails e;
  requests_get := requests_get e;
  chat_completions_create := chat_completions_create e
|}.

Definition songs : list (string * string) :=
  [ ("despacito", "url1");
    ("shape of you", "url2");
    ("skyfall", "url3");
    ("sky full of stars", "url4") ].

(** No browser can be launched: [webbrowser.open] raises. *)
Definition headless : Env := {|
  OPENAI_API_KEY := None;
  NEWS_API_KEY := None;
  OpenAI := false;
  music := None;
  webbrowser_open_fails := always "Error";
  gtts_pygame_fails := never;
  pyttsx3_fails := never;
  requests_get := fun _ _ => HttpRaises (Exception "ConnectionError");
  chat_completions_create :=
    fun _ _ _ => ChatRaises (Exception "APIConnectionError")
|}.

Definition article (title : string) : pyval :=
  PDict [("source", PNone); ("title", PStr title)].

Definition seven_articles : list pyval :=
  [ article "One"; article "Two"; article "Three"; article "Four";
    article "Five"; article "Six"; PDict [("source", PNone)] ].

(** A news key is set and the service answers 200 with seven articles,
    the last of them without a title. *)
Definition newsroom : Env := {|
  OPENAI_API_KEY := None;
  NEWS_API_KEY := Some "k3y";
  OpenAI := false;
  music := None;
  webbrowser_open_fails := never;
  gtts_pygame_fails := never;
  pyttsx3_fails := never;
  requests_get :=
    fun _ _ =>
      HttpResponse 200
        (Some (PDict [("status", PStr "ok");
                      ("articles", PList seven_articles)]));
  chat_completions_create :=
    fun _ _ _ => ChatRaises (Exception "APIConnectionError")
|}.

(** A news key is set and the service answers 200 with two articles, the
    second with a number where its title should be. *)
Definition numbered_newsroom : Env := {|
  OPENAI_API_KEY := None;
  NEWS_API_KEY := Some "k3y";
  OpenAI := false;
  music := None;
  webbrowser_open_fails := never;
  gtts_pygame_fails := never;
  pyttsx3_fails := never;
  requests_get :=
    fun _ _ =>
      HttpResponse 200
        (Some (PDict [("articles",
                       PList [article "One"; PDict [("title", PNum 2)]])]));
  chat_completions_create :=
    fun _ _ _ => ChatRaises (Exception "APIConnectionError")
|}.

(** ** Further vocabulary *)

(** A string of whitespace only (the empty string included). *)
Fixpoint all_ws (s : string) : bool :=
  match s with
  | EmptyString => true
  | String c s' => isspace c && all_ws s'
  end.

(** A string without the period character. *)
Fixpoint no_period (s : string) : bool :=
  match s with
  | EmptyString => true
  | String c s' => negb (Ascii.eqb c ".") && no_period s'
  end.

Definition is_str (v : pyval) : bool :=
  match v with PStr _ => true | _ => false end.

(** The chunks one headline hands to synthesis: those of a string, none
    for an object [speak] returns on at once. *)
Definition headline_chunks (v : pyval) : list string :=
  match v with
  | PStr s => map (fun c => (c ++ ".")%string) (chunks s)
  | _ => []
  end.

(** The pauses of a run, and the user prompts sent to the chat service. *)
Definition sleeps (t : trace) : list Z :=
  flat_map (fun ev => match ev with Sleep ms => [ms] | _ => [] end) t.

Definition prompts (t : trace) : list string :=
  flat_map
    (fun ev => match ev with ChatCompletion _ _ user _ => [user] | _ => [] end)
    t.

Definition ai_not_configured : string :=
  "AI not configured. Please set OPENAI_API_KEY in client.py and install openai package.".

Definition ai_unreachable : string :=
  "Sorry, I couldn't reach the AI service.".

(** A news key is set and the service gives [answer] to every request. *)
Definition news_env (answer : http_outcome) : Env := {|
  OPENAI_API_KEY := None;
  NEWS_API_KEY := Some "k3y";
  OpenAI := false;
  music := None;
  webbrowser_open_fails := never;
  gtts_pygame_fails := never;
  pyttsx3_fails := never;
  requests_get := fun _ _ => answer;
  chat_completions_create :=
    fun _ _ _ => ChatRaises (Exception "APIConnectionError")
|}.

(** A headline [speak] accepts: a string, or an object it returns on. *)
Definition speakable (v : pyval) : bool := is_str v || negb (truthy v).

(** ** The listener

    The microphone side of the program has collaborators of its own.  Its
    runs are traces of [ear_event]s: the events of the dispatcher side
    (those of [event], the listener's own log lines among them) and the
    three calls on the recognizer.  The captured audio is opaque and
    stands as a number.  Durations are in milliseconds, the two limits of
    [listen] in seconds, as the source writes them. *)
Inductive ear_event : Type :=
| Acted (ev : event)
| AdjustForAmbientNoise (duration_ms : Z)
| Listen (timeout : option Z) (phrase_time_limit : Z)
| RecognizeGoogle (audio : nat).

Inductive listened : Type :=
| ListenRaises (e : exn)
| Captured (audio : nat).

Inductive recognized : Type :=
| RecognizeRaises (e : exn)
| Text (text : string).

(** The recognizer and the microphone.  [ambient_fails] covers opening the
    microphone and calibrating, [listen] opening it and capturing one
    phrase ([WaitTimeoutError] when nothing is said in time). *)
Record Ears : Type := {
  ambient_fails : list ear_event -> option exn;
  listen : list ear_event -> listened;
  recognize_google : list ear_event -> nat -> recognized
}.

Definition L (A : Type) : Type :=
  list ear_event -> result A * list ear_event.

Definition retL {A : Type} (a : A) : L A := fun _ => (Return a, []).

Definition raiseL {A : Type} (e : exn) : L A := fun _ => (Raise e, []).

Definition bindL {A B : Type} (m : L A) (f : A -> L B) : L B :=
  fun H =>
    match m H with
    | (Return a, o) => let (r, o') := f a (H ++ o) in (r, o ++ o')
    | (Raise e, o) => (Raise e, o)
    end.

Definition try_exceptL {A : Type} (m : L A) (handler : exn -> L A) : L A :=
  fun H =>
    match m H with
    | (Return a, o) => (Return a, o)
    | (Raise e, o) => let (r, o') := handler e (H ++ o) in (r, o ++ o')
    end.

(** The dispatcher-side events of a listener trace. *)
Definition acts (H : list ear_event) : trace :=
  flat_map (fun ev => match ev with Acted e => [e] | _ => [] end) H.

(** A computation of the dispatcher side run inside the listener: its
    collaborators see the dispatcher-side events so far. *)
Definition lift {A : Type} (m : M A) : L A :=
  fun H => let (r, o) := m (acts H) in (r, map Acted o).

Declare Scope ear_scope.
Delimit Scope ear_scope with ear.
Notation "x <- m ;; k" := (bindL m (fun x => k))
  (at level 61, m at next level, right associativity) : ear_scope.
Notation "m ;; k" := (bindL m (fun _ => k))
  (at level 61, right associativity) : ear_scope.

(** [text[n:]] *)
Fixpoint str_drop (n : nat) (s : string) : string :=
  match n, s with
  | O, _ => s
  | S _, EmptyString => EmptyString
  | S n', String _ s' => str_drop n' s'
  end.

Section Listener.

Variable env : Env.
Variable ears : Ears.

Local Open Scope ear_scope.

Definition printL (msg : string) : L unit :=
  fun _ => (Return tt, [Acted (Print msg)]).

(** [with mic as source: recognizer.adjust_for_ambient_noise(source, duration)] *)
Definition adjust_for_ambient_noise (duration_ms : Z) : L unit :=
  fun H =>
    (match ambient_fails ears H with None => Return tt | Some e => Raise e end,
     [AdjustForAmbientNoise duration_ms]).

(** [with mic as source: audio = recognizer.listen(source, timeout, phrase_time_limit)] *)
Definition recognizer_listen (timeout : option Z) (phrase_time_limit : Z)
    : L nat :=
  fun H =>
    (match listen ears H with
     | Captured audio => Return audio
     | ListenRaises e => Raise e
     end,
     [Listen timeout phrase_time_limit]).

(** [recognizer.recognize_google(audio)] *)
Definition recognize (audio : nat) : L string :=
  fun H =>
    (match recognize_google ears H audio with
     | Text text => Return text
     | RecognizeRaises e => Raise e
     end,
     [RecognizeGoogle audio]).

(** The two [except] clauses after a recognition: [sr.UnknownValueError]
    gives [default] silently, [sr.RequestError] gives it after a log line,
    and any other exception goes on to the enclosing handler. *)
Definition recognition_failed {A : Type} (default : A) (e : exn) : L A :=
  match e with
  | Exception cls =>
      if String.eqb cls "UnknownValueError" then retL default
      else if String.eqb cls "RequestError" then
        printL "Speech recognition request error:" ;; retL default
      else raiseL e
  end.

Definition listen_for_wakeword (wakeword : string) (timeout : option Z)
    (phrase_time_limit : Z) : L bool :=
  try_exceptL
    (printL "Adjusting for ambient noise... (1 sec)" ;;
     adjust_for_ambient_noise 1000 ;;
     printL "Listening for wake word..." ;;
     audio <- recognizer_listen timeout phrase_time_limit ;;
     try_exceptL
       (text <- recognize audio ;;
        printL "Heard (wake stage):" ;;
        retL (str_in (lower wakeword) (lower text)))
       (recognition_failed false))
    (fun _ => printL "Exception listening for wakeword:" ;; retL false).

Definition listen_for_command (timeout : option Z) (phrase_time_limit : Z)
    : L (option string) :=
  try_exceptL
    (adjust_for_ambient_noise 500 ;;
     audio <- recognizer_listen timeout phrase_time_limit ;;
     try_exceptL
       (text <- recognize audio ;;
        printL "Command recognized:" ;;
        retL (Some text))
       (recognition_failed None))
    (fun _ => printL "Exception in listen_for_command:" ;; retL None).

(** The command as dispatched: a leading "jarvis", in any letter case, is
    cut off and the rest trimmed. *)
Definition cmd_clean (cmd : string) : string :=
  if startswith (lower cmd) "jarvis" then strip (str_drop 6 cmd) else cmd.

(** One turn of the [while True] of [main_loop], with its handler for
    [Exception]; [continue] ends the turn.  A keyboard interrupt, which
    alone ends the loop, is not an [exn] and is left out. *)
Definition main_loop_turn : L unit :=
  try_exceptL
    (got_wake <- listen_for_wakeword "jarvis" (Some 6%Z) 5 ;;
     if negb got_wake then retL tt
     else
       lift (speak env "Yes?") ;;
       cmd <- listen_for_command (Some 6%Z) 8 ;;
       match cmd with
       | None | Some EmptyString =>
           lift (speak env "Sorry, I didn't catch that.")
       | Some cmd => lift (processCommand env (cmd_clean cmd))
       end)
    (fun _ =>
       printL "Main loop exception:" ;;
       lift print_exc ;;
       lift (sleep 500)).

(** The start of [main_loop] and its first [turns] turns. *)
Fixpoint main_loop_turns (turns : nat) : L unit :=
  match turns with
  | O => retL tt
  | S n => main_loop_turn ;; main_loop_turns n
  end.

Definition main_loop_prefix (turns : nat) : L unit :=
  lift (speak env "Initializing Jarvis.") ;;
  lift (sleep 300) ;;
  main_loop_turns turns.

End Listener.

(** A listener that captures a phrase and recognizes [wake] at the wake
    stage (before anything is spoken) and [command] after it. *)
Definition hears (wake command : recognized) : Ears := {|
  ambient_fails := fun _ => None;
  listen := fun _ => Captured 0;
  recognize_google :=
    fun H _ =>
      match synthesized (acts H) with
      | [] => wake
      | _ => command
      end
|}.

(** The chat service is configured and gives [answer] to every call. *)
Definition chat_env (answer : chat_outcome) : Env := {|
  OPENAI_API_KEY := Some "sk";
  NEWS_API_KEY := None;
  OpenAI := true;
  music := None;
  webbrowser_open_fails := never;
  gtts_pygame_fails := never;
  pyttsx3_fails := never;
  requests_get := fun _ _ => HttpRaises (Exception "ConnectionError");
  chat_completions_create := fun _ _ _ => answer
|}.

(** A string that neither begins nor ends with whitespace. *)
Definition first_is_space (s : string) : bool :=
  match s with
  | EmptyString => false
  | String c _ => isspace c
  end.

Fixpoint last_is_space (s : string) : bool :=
  match s with
  | EmptyString => false
  | String c EmptyString => isspace c
  | String _ s' => last_is_space s'
  end.

Definition trimmed (s : string) : bool :=
  negb (first_is_space s) && negb (last_is_space s).

(** ** Characters and strings *)

Lemma isspace_lower_char (c : ascii) : isspace (lower_char c) = isspace c.
Proof. destruct c as [[] [] [] [] [] [] [] []]; reflexivity. Qed.

Lemma lower_char_idem (c : ascii) : lower_char (lower_char c) = lower_char c.
Proof. destruct c as [[] [] [] [] [] [] [] []]; reflexivity. Qed.

Lemma lower_idem (s : string) : lower (lower s) = lower s.
Proof.
  induction s as [|c s IH]; simpl; [reflexivity|].
  now rewrite lower_char_idem, IH.
Qed.

Lemma lower_app (s t : string) :
  lower (s ++ t)%string = (lower s ++ lower t)%string.
Proof. induction s as [|c s IH]; simpl; [reflexivity | now rewrite IH]. Qed.

Lemma is_empty_lower (s : string) : is_empty (lower s) = is_empty s.
Proof. now destruct s. Qed.

Lemma is_empty_true (s : string) : is_empty s = true -> s = EmptyString.
Proof. now destruct s. Qed.

Lemma cons_word_lower (w : string) (ws : list string) :
  cons_word (lower w) (map lower ws) = map lower (cons_word w ws).
Proof. unfold cons_word. rewrite is_empty_lower. now destruct (is_empty w). Qed.

Lemma split_go_lower (s : string) :
  split_go (lower s)
  = (lower (fst (split_go s)), map lower (snd (split_go s))).
Proof.
  induction s as [|c s IH]; simpl; [reflexivity|].
  rewrite IH, isspace_lower_char.
  destruct (split_go s) as [w ws]; simpl.
  destruct (isspace c); simpl; [now rewrite cons_word_lower | reflexivity].
Qed.

Lemma split_lower (s : string) : split (lower s) = map lower (split s).
Proof.
  unfold split. rewrite split_go_lower.
  destruct (split_go s) as [w ws]; simpl. apply cons_word_lower.
Qed.

Lemma split_space_cons (c : ascii) (s : string) :
  isspace c = true -> split (String c s) = split s.
Proof.
  intros Hc. unfold split; simpl. rewrite Hc.
  now destruct (split_go s).
Qed.

Lemma split_lstrip (s : string) : split (lstrip s) = split s.
Proof.
  induction s as [|c s IH]; simpl; [reflexivity|].
  destruct (isspace c) eqn:Hc; [|reflexivity].
  now rewrite IH, split_space_cons.
Qed.

Lemma split_go_rstrip (s : string) : split_go (rstrip s) = split_go s.
Proof.
  induction s as [|c s IH]; simpl; [reflexivity|].
  destruct (isspace c) eqn:Hc; simpl.
  - destruct (is_empty (rstrip s)) eqn:He; simpl.
    + apply is_empty_true in He. rewrite He in IH. simpl in IH.
      now rewrite <- IH.
    + now rewrite Hc, IH.
  - now rewrite Hc, IH.
Qed.

Lemma split_strip (s : string) : split (strip s) = split s.
Proof.
  unfold strip. rewrite <- (split_lstrip s).
  unfold split. now rewrite split_go_rstrip.
Qed.

Lemma cons_word_words (w : string) (ws : list string) :
  no_ws w = true -> Forall (fun x => is_word x = true) ws ->
  Forall (fun x => is_word x = true) (cons_word w ws).
Proof.
  intros Hw Hws. unfold cons_word.
  destruct (is_empty w) eqn:He; [assumption|].
  constructor; [|assumption]. unfold is_word. now rewrite He, Hw.
Qed.

Lemma split_go_words (s : string) :
  no_ws (fst (split_go s)) = true
  /\ Forall (fun x => is_word x = true) (snd (split_go s)).
Proof.
  induction s as [|c s [IHw IHws]]; simpl; [now split|].
  destruct (split_go s) as [w ws]; simpl in *.
  destruct (isspace c) eqn:Hc; simpl.
  - split; [reflexivity | now apply cons_word_words].
  - rewrite Hc. now split.
Qed.

Lemma split_words (s : string) :
  Forall (fun x => is_word x = true) (split s).
Proof.
  unfold split. pose proof (split_go_words s) as [Hw Hws].
  destruct (split_go s) as [w ws]. now apply cons_word_words.
Qed.

Lemma split_go_app_word (w s : string) :
  no_ws w = true ->
  split_go (w ++ s)%string
  = ((w ++ fst (split_go s))%string, snd (split_go s)).
Proof.
  induction w as [|c w IH]; simpl; intros Hw.
  - now destruct (split_go s).
  - apply andb_true_iff in Hw as [Hc Hw].
    rewrite (IH Hw). apply negb_true_iff in Hc. now rewrite Hc.
Qed.

Lemma append_empty_r (s : string) : (s ++ "")%string = s.
Proof. induction s as [|c s IH]; simpl; [reflexivity | now rewrite IH]. Qed.

Lemma split_go_space (s : string) :
  split_go (String " " s) = (EmptyString, split s).
Proof. unfold split. simpl. now destruct (split_go s). Qed.

Lemma join_cons2 (sep w w' : string) (ws : list string) :
  join sep (w :: w' :: ws) = (w ++ sep ++ join sep (w' :: ws))%string.
Proof. reflexivity. Qed.

Lemma split_join (ws : list string) :
  Forall (fun x => is_word x = true) ws -> split (join " " ws) = ws.
Proof.
  induction 1 as [|w ws Hw Hws IH]; [reflexivity|].
  apply andb_true_iff in Hw as [Hne Hnw].
  apply negb_true_iff in Hne.
  destruct ws as [|w' ws].
  - simpl. unfold split.
    rewrite <- (append_empty_r w) at 1. rewrite (split_go_app_word _ _ Hnw).
    simpl. rewrite append_empty_r. unfold cons_word. now rewrite Hne.
  - rewrite join_cons2. unfold split at 1.
    rewrite (split_go_app_word _ _ Hnw).
    change (" " ++ join " " (w' :: ws))%string
      with (String " " (join " " (w' :: ws))).
    rewrite split_go_space, IH. cbn [fst snd].
    rewrite append_empty_r. unfold cons_word. now rewrite Hne.
Qed.

Lemma lower_join (ws : list string) :
  lower (join " " ws) = join " " (map lower ws).
Proof.
  induction ws as [|w ws IH]; [reflexivity|].
  destruct ws as [|w' ws]; [reflexivity|].
  rewrite join_cons2, !lower_app, IH. reflexivity.
Qed.

(** C9. Normalization is idempotent: normalizing a normalized query gives
    the same string back, for every query [q]. *)
Theorem normalize_key_idempotent (q : string) :
  normalize_key (normalize_key q) = normalize_key q.
Proof.
  unfold normalize_key.
  rewrite !split_strip, lower_join, <- split_lower, lower_idem.
  now rewrite split_join by apply split_words.
Qed.

(** ** Runs of the monad *)

Lemma bind_run {A B : Type} (m : M A) (f : A -> M B) (h : trace) (a : A)
    (o : trace) :
  m h = (Return a, o) ->
  bind m f h = (fst (f a (h ++ o)), o ++ snd (f a (h ++ o))).
Proof. intros Hm. unfold bind. rewrite Hm. now destruct (f a (h ++ o)). Qed.

Lemma bind_raise {A B : Type} (m : M A) (f : A -> M B) (h : trace) (e : exn)
    (o : trace) :
  m h = (Raise e, o) -> bind m f h = (Raise e, o).
Proof. intros Hm. unfold bind. now rewrite Hm. Qed.

Lemma run_eta {A : Type} (m : M A) (h : trace) (a : A) :
  fst (m h) = Return a -> m h = (Return a, snd (m h)).
Proof. destruct (m h) as [r o]. simpl. now intros ->. Qed.

Lemma synthesized_app (s t : trace) :
  synthesized (s ++ t) = synthesized s ++ synthesized t.
Proof. apply flat_map_app. Qed.

Lemma opened_app (s t : trace) : opened (s ++ t) = opened s ++ opened t.
Proof. apply flat_map_app. Qed.

Lemma fetched_app (s t : trace) : fetched (s ++ t) = fetched s ++ fetched t.
Proof. apply flat_map_app. Qed.

(** ** The speech adapter *)

Lemma speak_with_pygame_run (env : Env) (text : string) (h : trace) :
  speak_with_pygame env text h
  = (Return tt,
     match gtts_pygame_fails env h text with
     | None => [PrimaryTTS text]
     | Some _ =>
         PrimaryTTS text :: Print fallback_notice :: FallbackTTS text
         :: match pyttsx3_fails env
                    ((h ++ [PrimaryTTS text]) ++ [Print fallback_notice]) text
            with
            | None => []
            | Some _ => [Print "pytt fallback also failed:"]
            end
     end).
Proof.
  unfold speak_with_pygame, try_except, gtts_pygame, pyttsx3_say, call, bind,
    print, emit, fallback_notice.
  destruct (gtts_pygame_fails env h text); [|reflexivity].
  now destruct (pyttsx3_fails env _ text).
Qed.

Lemma speak_with_pygame_returns (env : Env) (text : string) (h : trace) :
  fst (speak_with_pygame env text h) = Return tt.
Proof. now rewrite speak_with_pygame_run. Qed.

Lemma speak_with_pygame_effects (env : Env) (text : string) (h : trace) :
  synthesized (snd (speak_with_pygame env text h)) = [text]
  /\ opened (snd (speak_with_pygame env text h)) = []
  /\ fetched (snd (speak_with_pygame env text h)) = [].
Proof.
  rewrite speak_with_pygame_run. simpl.
  destruct (gtts_pygame_fails env h text); [|now repeat split].
  now destruct (pyttsx3_fails env _ text).
Qed.

Lemma speak_chunks_run (env : Env) (l : list string) (h : trace) :
  let run := for_each l (fun c => speak_with_pygame env (c ++ ".")%string) h in
  fst run = Return tt
  /\ synthesized (snd run) = map (fun c => (c ++ ".")%string) l
  /\ opened (snd run) = []
  /\ fetched (snd run) = [].
Proof.
  revert h. induction l as [|c l IH]; intros h; simpl; [now repeat split|].
  pose proof (speak_with_pygame_returns env (c ++ ".") h) as Hr.
  rewrite (bind_run _ _ _ _ _ (run_eta _ _ _ Hr)).
  destruct (speak_with_pygame_effects env (c ++ ".") h) as (Hs & Ho & Hf).
  destruct (IH (h ++ snd (speak_with_pygame env (c ++ ".") h)))
    as (IHr & IHs & IHo & IHf).
  cbn [fst snd].
  rewrite synthesized_app, opened_app, fetched_app, Hs, Ho, Hf, IHs, IHo, IHf.
  now repeat split.
Qed.

Lemma speak_run (env : Env) (text : string) (h : trace) :
  fst (speak env text h) = Return tt
  /\ synthesized (snd (speak env text h))
     = map (fun c => (c ++ ".")%string) (chunks text)
  /\ opened (snd (speak env text h)) = []
  /\ fetched (snd (speak env text h)) = [].
Proof.
  unfold speak. destruct text as [|c text]; [now repeat split|].
  cbn [is_empty]. apply speak_chunks_run.
Qed.

Lemma speak_eta (env : Env) (text : string) (h : trace) :
  speak env text h = (Return tt, snd (speak env text h)).
Proof. apply run_eta, speak_run. Qed.

(** ** Splitting on the period and trimming *)

Lemma lstrip_all_ws (s : string) : all_ws s = true -> lstrip s = EmptyString.
Proof.
  induction s as [|c s IH]; cbn [all_ws lstrip]; [reflexivity|].
  intros H. apply andb_true_iff in H as [Hc Hs]. rewrite Hc. now apply IH.
Qed.

Lemma lstrip_no_period (s : string) :
  no_period s = true -> no_period (lstrip s) = true.
Proof.
  induction s as [|c s IH]; [reflexivity|].
  intros Hs. cbn [lstrip]. destruct (isspace c); [|exact Hs].
  cbn [no_period] in Hs. apply andb_true_iff in Hs as [_ Hs]. now apply IH.
Qed.

Lemma rstrip_no_period (s : string) :
  no_period s = true -> no_period (rstrip s) = true.
Proof.
  induction s as [|c s IH]; [reflexivity|].
  cbn [no_period rstrip]. intros Hs. apply andb_true_iff in Hs as [Hc Hs].
  destruct (isspace c && is_empty (rstrip s)); [reflexivity|].
  cbn [no_period]. now rewrite Hc, IH.
Qed.

Lemma split_on_no_period (s : string) :
  Forall (fun w => no_period w = true) (split_on "."%char s).
Proof.
  induction s as [|c s IH]; [now repeat constructor|].
  cbn [split_on]. destruct (Ascii.eqb c ".") eqn:Hc.
  - now constructor.
  - destruct (split_on "."%char s) as [|w ws];
      [repeat constructor; cbn; now rewrite Hc|].
    inversion IH as [|? ? Hw Hws]; subst.
    constructor; [|exact Hws]. cbn [no_period]. now rewrite Hc, Hw.
Qed.

Lemma split_on_nonempty (d : ascii) (s : string) : split_on d s <> [].
Proof.
  destruct s as [|c s]; cbn [split_on]; [discriminate|].
  destruct (Ascii.eqb c d); [discriminate|].
  destruct (split_on d s); discriminate.
Qed.

Lemma split_on_join (s : string) : join "." (split_on "."%char s) = s.
Proof.
  induction s as [|c s IH]; [reflexivity|].
  cbn [split_on]. destruct (Ascii.eqb c ".") eqn:Hc.
  - apply Ascii.eqb_eq in Hc. subst c.
    destruct (split_on "."%char s) as [|w ws] eqn:Hs;
      [now apply split_on_nonempty in Hs|].
    rewrite join_cons2, IH. reflexivity.
  - destruct (split_on "."%char s) as [|w ws] eqn:Hs;
      [now apply split_on_nonempty in Hs|].
    destruct ws as [|w' ws].
    + cbn [join] in *. now rewrite IH.
    + rewrite (join_cons2 "." w w' ws) in IH.
      rewrite (join_cons2 "." (String c w) w' ws).
      cbn [append] in *. now rewrite IH.
Qed.

Lemma lstrip_decompose (s : string) :
  exists before : string,
    s = (before ++ lstrip s)%string /\ all_ws before = true.
Proof.
  induction s as [|c s (before & Hs & Hb)]; [now exists EmptyString|].
  cbn [lstrip]. destruct (isspace c) eqn:Hc.
  - exists (String c before). cbn [append all_ws]. rewrite Hc, Hb.
    now rewrite <- Hs.
  - now exists EmptyString.
Qed.

Lemma rstrip_decompose (s : string) :
  exists after : string,
    s = (rstrip s ++ after)%string /\ all_ws after = true.
Proof.
  induction s as [|c s (after & Hs & Ha)]; [now exists EmptyString|].
  cbn [rstrip]. destruct (isspace c && is_empty (rstrip s)) eqn:Hc.
  - apply andb_true_iff in Hc as [Hc He]. apply is_empty_true in He.
    rewrite He in Hs. cbn [append] in Hs.
    exists (String c after). cbn [append all_ws]. rewrite Hc, Ha.
    now rewrite <- Hs.
  - exists after. cbn [append]. now rewrite <- Hs.
Qed.

Lemma lstrip_first (s : string) : first_is_space (lstrip s) = false.
Proof.
  induction s as [|c s IH]; [reflexivity|].
  cbn [lstrip]. destruct (isspace c) eqn:Hc; [exact IH | exact Hc].
Qed.

Lemma rstrip_first (s : string) :
  first_is_space s = false -> first_is_space (rstrip s) = false.
Proof.
  destruct s as [|c s]; [reflexivity|].
  cbn [first_is_space rstrip]. intros Hc. now rewrite Hc.
Qed.

Lemma rstrip_last (s : string) : last_is_space (rstrip s) = false.
Proof.
  induction s as [|c s IH]; [reflexivity|].
  cbn [rstrip]. destruct (isspace c && is_empty (rstrip s)) eqn:Hc;
    [reflexivity|].
  destruct (rstrip s) as [|c' r] eqn:Hr.
  - cbn [is_empty] in Hc. rewrite andb_true_r in Hc. exact Hc.
  - exact IH.
Qed.

Lemma strip_trimmed (s : string) : trimmed (strip s) = true.
Proof.
  unfold trimmed, strip.
  now rewrite (rstrip_first _ (lstrip_first s)), rstrip_last.
Qed.

Lemma strip_decompose (s : string) :
  exists before after : string,
    s = (before ++ strip s ++ after)%string
    /\ all_ws before = true /\ all_ws after = true.
Proof.
  destruct (lstrip_decompose s) as (before & Hs & Hb).
  destruct (rstrip_decompose (lstrip s)) as (after & Hl & Ha).
  exists before, after. unfold strip. now rewrite <- Hl, <- Hs.
Qed.

Lemma is_empty_strip (s : string) : is_empty (strip s) = all_ws s.
Proof.
  induction s as [|c s IH]; [reflexivity|].
  unfold strip in *. cbn [lstrip all_ws].
  destruct (isspace c) eqn:Hc; [exact IH|].
  cbn [rstrip]. now rewrite Hc.
Qed.

Lemma chunks_blank_dropped (text : string) :
  chunks text
  = map strip (filter (fun seg => negb (all_ws seg)) (split_on "."%char text)).
Proof.
  unfold chunks. f_equal. apply filter_ext. intros seg.
  now rewrite is_empty_strip.
Qed.

(** C4. The chunker splits the text at its periods (the segments have no
    period and, joined by periods, give the text back), trims each segment
    (a segment is its chunk between two runs of whitespace, and the chunk
    begins and ends with none), drops the segments that are empty or
    blank, and hands each survivor, one period appended, to the synthesis
    path, in input order; [speak] always returns.  On the three texts of
    the specification: "A. B. C." gives the calls "A.", "B.", "C."; the
    empty text gives none; "NoPeriodHere" gives the one call
    "NoPeriodHere."; and whitespace around a segment is cut on both
    sides. *)
Theorem speak_chunking (env : Env) (text : string) (h : trace) :
  join "." (split_on "."%char text) = text
  /\ Forall (fun seg => no_period seg = true) (split_on "."%char text)
  /\ (forall seg : string,
        exists before after : string,
          seg = (before ++ strip seg ++ after)%string
          /\ all_ws before = true /\ all_ws after = true
          /\ trimmed (strip seg) = true)
  /\ chunks text
     = map strip
         (filter (fun seg => negb (all_ws seg)) (split_on "."%char text))
  /\ fst (speak env text h) = Return tt
  /\ synthesized (snd (speak env text h))
     = map (fun c => (c ++ ".")%string) (chunks text)
  /\ synthesized (snd (speak env "A. B. C." h)) = ["A."; "B."; "C."]
  /\ synthesized (snd (speak env "" h)) = []
  /\ synthesized (snd (speak env "NoPeriodHere" h)) = ["NoPeriodHere."]
  /\ synthesized (snd (speak env "  A . B  .   .C " h)) = ["A."; "B."; "C."].
Proof.
  split; [apply split_on_join|].
  split; [apply split_on_no_period|].
  split.
  { intros seg. destruct (strip_decompose seg) as (before & after & Hs & Hb & Ha).
    exists before, after. repeat split; try assumption. apply strip_trimmed. }
  split; [apply chunks_blank_dropped|].
  destruct (speak_run env text h) as (Hr & Hs & _).
  split; [exact Hr|]. split; [exact Hs|].
  repeat split.
  - now destruct (speak_run env "A. B. C." h) as (_ & -> & _).
  - now destruct (speak_run env "NoPeriodHere" h) as (_ & -> & _).
  - now destruct (speak_run env "  A . B  .   .C " h) as (_ & -> & _).
Qed.


(** ** Monad laws used below *)

Lemma bind_ret {A B : Type} (a : A) (f : A -> M B) (h : trace) :
  bind (ret a) f h = f a h.
Proof.
  unfold bind, ret. rewrite app_nil_r. now destruct (f a h).
Qed.

Lemma bind_emit {B : Type} (ev : event) (f : unit -> M B) (h : trace) :
  bind (emit ev) f h
  = (fst (f tt (h ++ [ev])), ev :: snd (f tt (h ++ [ev]))).
Proof. unfold bind, emit. now destruct (f tt (h ++ [ev])). Qed.

Lemma bind_speak {B : Type} (env : Env) (text : string) (f : unit -> M B)
    (h : trace) :
  bind (speak env text) f h
  = (fst (f tt (h ++ snd (speak env text h))),
     snd (speak env text h) ++ snd (f tt (h ++ snd (speak env text h)))).
Proof. apply bind_run, speak_eta. Qed.

Lemma open_then_speak (env : Env) (url reply : string) (h : trace) :
  (webbrowser_open env url ;; speak env reply) h
  = match webbrowser_open_fails env h url with
    | None =>
        (Return tt,
         BrowserOpen url :: snd (speak env reply (h ++ [BrowserOpen url])))
    | Some e => (Raise e, [BrowserOpen url])
    end.
Proof.
  unfold bind, webbrowser_open, call.
  destruct (webbrowser_open_fails env h url); [reflexivity|].
  now rewrite speak_eta.
Qed.

Lemma open_then_speak_opened (env : Env) (url reply : string) (h : trace) :
  opened (snd ((webbrowser_open env url ;; speak env reply) h)) = [url].
Proof.
  rewrite open_then_speak.
  destruct (webbrowser_open_fails env h url); [reflexivity|].
  cbn [snd]. change (BrowserOpen url :: ?t) with ([BrowserOpen url] ++ t).
  rewrite opened_app.
  destruct (speak_run env reply (h ++ [BrowserOpen url])) as (_ & _ & -> & _).
  reflexivity.
Qed.

(** ** The dispatcher *)

Lemma dispatch_by_intent (env : Env) (c : string) :
  dispatch env c
  = match classify (lower c) with
    | OpenSite url reply => webbrowser_open env url ;; speak env reply
    | PlayMusic => handle_play_command env c
    | FetchNews =>
        speak env "Fetching the top headlines." ;;
        headlines <- get_headlines env (PStr "in") (PNum 5) ;;
        for_each headlines (fun h => speak_obj env h ;; sleep 200)
    | AskAI =>
        speak env "Let me check." ;;
        answer <- aiProcess env c ;;
        speak env answer
    end.
Proof.
  unfold dispatch, classify.
  repeat match goal with
         | |- context [if ?b then _ else _] => destruct b; try reflexivity
         end.
Qed.

Lemma apology_chunks : map (fun c => (c ++ ".")%string) (chunks apology) = [apology].
Proof. reflexivity. Qed.

(** C7. [processCommand] always returns normally, whatever the command
    and whatever the collaborators do.  When a branch of the dispatcher
    raises, the run is the branch's events up to the exception, the two log
    lines, and one utterance of the apology (one chunk handed to
    synthesis); when no branch raises, the run is the branch's own. *)
Theorem processCommand_never_raises (env : Env) (c : string) (h : trace) :
  fst (processCommand env c h) = Return tt
  /\ (forall e : exn,
        is_empty (strip c) = false ->
        fst (dispatch env (strip c) h) = Raise e ->
        let t := snd (dispatch env (strip c) h) in
        let h' := ((h ++ t) ++ [Print "Error in processCommand:"]) ++ [PrintExc] in
        snd (processCommand env c h)
        = t ++ Print "Error in processCommand:" :: PrintExc
            :: snd (speak env apology h')
        /\ synthesized (snd (speak env apology h')) = [apology])
  /\ (is_empty (strip c) = false ->
      fst (dispatch env (strip c) h) = Return tt ->
      processCommand env c h = dispatch env (strip c) h).
Proof.
  unfold processCommand, try_except.
  destruct (is_empty (strip c)) eqn:Hc.
  - repeat split; intros; discriminate.
  - destruct (dispatch env (strip c) h) as [[[]|e0] t] eqn:Hd; cbn [fst snd].
    + repeat split; intros; try discriminate; reflexivity.
    + unfold print, print_exc. rewrite !bind_emit. cbn [fst snd].
      destruct (speak_run env apology
                  (((h ++ t) ++ [Print "Error in processCommand:"]) ++ [PrintExc]))
        as (Hr & Hs & _).
      rewrite Hr. repeat split; intros; try discriminate.
      now rewrite Hs.
Qed.

Lemma processCommand_never_raises_witness :
  fst (dispatch headless (strip "open google") []) = Raise (Exception "Error")
  /\ processCommand headless "open google" []
     = (Return tt,
        [BrowserOpen "https://google.com"; Print "Error in processCommand:";
         PrintExc; PrimaryTTS apology]).
Proof.
  split; [reflexivity|].
  destruct (processCommand_never_raises headless "open google" [])
    as (Hret & Hraise & _).
  destruct (Hraise (Exception "Error") eq_refl eq_refl) as [Htrace _].
  rewrite (surjective_pairing (processCommand headless "open google" [])).
  rewrite Hret, Htrace. reflexivity.
Defined.

(** ** The news branch *)

Lemma get_headlines_no_key (env : Env) (country page_size : pyval) (h : trace) :
  NEWS_API_KEY env = None \/ NEWS_API_KEY env = Some EmptyString ->
  get_headlines env country page_size h = (Return [PStr config_missing], []).
Proof. unfold get_headlines. now intros [-> | ->]. Qed.

Lemma speak_obj_str (env : Env) (s : string) (h : trace) :
  speak_obj env (PStr s) h = speak env s h.
Proof. now destruct s. Qed.

Lemma speak_headline (env : Env) (s : string) (h : trace) :
  (speak_obj env (PStr s) ;; sleep 200) h
  = (Return tt, snd (speak env s h) ++ [Sleep 200]).
Proof.
  unfold bind. rewrite speak_obj_str, speak_eta. reflexivity.
Qed.

(** C6 (amended). With no news key configured, a command the dispatcher
    routes to the news branch first speaks "Fetching the top headlines."
    and then the configuration-missing message, sleeps once and returns;
    the message reaches synthesis as three chunks; no HTTP request is made
    and no URL is opened. *)
Theorem news_without_key (env : Env) (c : string) (h : trace) :
  NEWS_API_KEY env = None \/ NEWS_API_KEY env = Some EmptyString ->
  is_empty (strip c) = false ->
  classify (lower (strip c)) = FetchNews ->
  let announced := snd (speak env "Fetching the top headlines." h) in
  processCommand env c h
  = (Return tt,
     announced ++ snd (speak env config_missing (h ++ announced))
     ++ [Sleep 200])
  /\ synthesized (snd (processCommand env c h))
     = ["Fetching the top headlines."; "News API key not configured.";
        "Put NEWS_API_KEY in client."; "py."]
  /\ fetched (snd (processCommand env c h)) = []
  /\ opened (snd (processCommand env c h)) = [].
Proof.
  intros Hkey Hc Hnews announced.
  assert (Hrun : processCommand env c h
                 = (Return tt,
                    announced
                    ++ snd (speak env config_missing (h ++ announced))
                    ++ [Sleep 200])).
  { unfold processCommand, try_except. rewrite Hc, dispatch_by_intent, Hnews.
    rewrite bind_speak. cbv beta. fold announced.
    rewrite (bind_run _ _ _ _ _ (get_headlines_no_key env _ _ _ Hkey)).
    rewrite app_nil_r. cbn [for_each app].
    rewrite (bind_run _ _ _ _ _ (speak_headline env config_missing _)).
    cbn [ret fst snd]. now rewrite app_nil_r. }
  rewrite Hrun. cbn [snd]. split; [reflexivity|].
  destruct (speak_run env "Fetching the top headlines." h) as (_ & Hs & Ho & Hf).
  destruct (speak_run env config_missing (h ++ announced))
    as (_ & Hs' & Ho' & Hf').
  fold announced in Hs, Ho, Hf.
  rewrite !synthesized_app, !fetched_app, !opened_app.
  rewrite Hs, Hs', Ho, Ho', Hf, Hf'. now repeat split.
Qed.

Lemma news_without_key_witness :
  processCommand bare "tell me the news" []
  = (Return tt,
     [PrimaryTTS "Fetching the top headlines.";
      PrimaryTTS "News API key not configured.";
      PrimaryTTS "Put NEWS_API_KEY in client."; PrimaryTTS "py."; Sleep 200]).
Proof.
  exact (proj1 (news_without_key bare "tell me the news" []
                  (or_introl eq_refl) eq_refl eq_refl)).
Defined.

(** C6, as stated, fails: with no key, "tell me the news" makes the
    program speak "Fetching the top headlines." before the
    configuration-missing message, so what is spoken is neither that
    message alone nor its chunks alone. *)
Lemma news_without_key_speaks_announcement_first :
  NEWS_API_KEY bare = None
  /\ synthesized (snd (processCommand bare "tell me the news" []))
     = "Fetching the top headlines."
       :: map (fun c => (c ++ ".")%string) (chunks config_missing)
  /\ synthesized (snd (processCommand bare "tell me the news" []))
     <> map (fun c => (c ++ ".")%string) (chunks config_missing)
  /\ synthesized (snd (processCommand bare "tell me the news" []))
     <> [config_missing]
  /\ fetched (snd (processCommand bare "tell me the news" [])) = [].
Proof. repeat split; try reflexivity; discriminate. Qed.

(** ** The headline fetcher *)

Lemma map_M_titles_silent (items : list pyval) (h : trace) :
  snd (map_M (fun a => py_get a "title" (PStr "Untitled")) items h) = [].
Proof.
  revert h. induction items as [|a items IH]; intros h; [reflexivity|].
  cbn [map_M]. destruct a; try reflexivity.
  unfold py_get at 1. rewrite bind_ret.
  unfold bind at 1. specialize (IH h).
  destruct (map_M _ items h) as [[ys|e] o]; cbn [snd] in IH; subst o;
    reflexivity.
Qed.

Lemma map_M_titles (arts : list pyval) (h : trace) :
  forallb is_dict arts = true ->
  map_M (fun a => py_get a "title" (PStr "Untitled")) arts h
  = (Return (map title_of arts), []).
Proof.
  revert h. induction arts as [|a arts IH]; intros h Hd; [reflexivity|].
  cbn [forallb] in Hd. apply andb_true_iff in Hd as [Ha Hd].
  destruct a; try discriminate.
  cbn [map_M]. unfold py_get at 1. rewrite bind_ret.
  rewrite (bind_run _ _ _ _ _ (IH h Hd)). reflexivity.
Qed.

Lemma get_headlines_fetched (env : Env) (country page_size : pyval)
    (h : trace) :
  fetched (snd (get_headlines env country page_size h))
  = match NEWS_API_KEY env with
    | None | Some EmptyString => []
    | Some key => [news_url key]
    end.
Proof.
  unfold get_headlines.
  destruct (NEWS_API_KEY env) as [[|k0 key]|]; try reflexivity.
  fold (news_url (String k0 key)). generalize (news_url (String k0 key)) as url.
  intros url. unfold try_except, bind at 1, requests_get_call.
  destruct (requests_get env h url) as [e|status body]; [reflexivity|].
  cbn [fst snd]. destruct (negb (status =? 200)%Z); [reflexivity|].
  destruct body as [data|]; [|reflexivity].
  unfold response_json. rewrite bind_ret.
  destruct data; try reflexivity.
  unfold py_get at 1. rewrite bind_ret.
  match goal with |- context [truthy ?a] => destruct a eqn:Ha end;
    try reflexivity.
  all: cbn [truthy negb].
  all: repeat match goal with
         | |- context [if ?b then _ else _] => destruct b; try reflexivity
         end.
  all: unfold py_iter; rewrite bind_ret.
  all: match goal with
       | |- context [map_M ?f ?l ?h'] =>
           pose proof (map_M_titles_silent l h') as Hsilent;
           destruct (map_M f l h') as [[ys|e] o]
       end.
  all: cbn [snd] in Hsilent; subst o; reflexivity.
Qed.


Lemma get_headlines_titles (env : Env) (country page_size : pyval) (h : trace)
    (key : string) (entries : list (string * pyval)) (arts : list pyval) :
  NEWS_API_KEY env = Some key ->
  is_empty key = false ->
  requests_get env h (news_url key) = HttpResponse 200 (Some (PDict entries)) ->
  dict_lookup entries "articles" = Some (PList arts) ->
  arts <> [] ->
  forallb is_dict arts = true ->
  get_headlines env country page_size h
  = (Return (map title_of arts), [HttpGet (news_url key) 8]).
Proof.
  intros Hkey Hne Hresp Harts Hsome Hdicts.
  unfold get_headlines. rewrite Hkey.
  destruct key as [|k0 key]; [discriminate|].
  fold (news_url (String k0 key)). revert Hresp.
  generalize (news_url (String k0 key)) as url. intros url Hresp.
  unfold try_except, bind at 1, requests_get_call. rewrite Hresp.
  cbn [fst snd negb Z.eqb Pos.eqb].
  unfold response_json. rewrite bind_ret.
  unfold py_get at 1. rewrite bind_ret, Harts.
  destruct arts as [|a arts]; [contradiction|].
  cbn [truthy negb]. unfold py_iter. rewrite bind_ret.
  now rewrite (map_M_titles _ _ Hdicts).
Qed.

(** C10. [get_headlines] does not look at its parameters: two calls that
    differ only in [country] and [page_size] run identically; the one URL
    it fetches has the country "in" written into it; and when the service
    answers 200 with a non-empty list of article objects, the headline
    list holds the title of every one of them, however many there are. *)
Theorem get_headlines_ignores_parameters (env : Env)
    (country page_size country' page_size' : pyval) (h : trace) :
  get_headlines env country page_size h
  = get_headlines env country' page_size' h
  /\ fetched (snd (get_headlines env country page_size h))
     = match NEWS_API_KEY env with
       | None | Some EmptyString => []
       | Some key =>
           [("https://newsapi.org/v2/top-headlines?country=in&apiKey=" ++ key)%string]
       end
  /\ (forall (key : string) (entries : list (string * pyval))
        (arts : list pyval),
        NEWS_API_KEY env = Some key ->
        is_empty key = false ->
        requests_get env h (news_url key)
        = HttpResponse 200 (Some (PDict entries)) ->
        dict_lookup entries "articles" = Some (PList arts) ->
        arts <> [] ->
        forallb is_dict arts = true ->
        fst (get_headlines env country page_size h)
        = Return (map title_of arts)
        /\ List.length (map title_of arts) = List.length arts).
Proof.
  split; [reflexivity|]. split; [apply get_headlines_fetched|].
  intros key entries arts Hkey Hne Hresp Harts Hsome Hdicts.
  rewrite (get_headlines_titles env country page_size h key entries arts)
    by assumption.
  split; [reflexivity | apply length_map].
Qed.

Lemma get_headlines_ignores_parameters_witness :
  List.length seven_articles = 7%nat
  /\ fst (get_headlines newsroom (PStr "us") (PNum 2) [])
     = Return [PStr "One"; PStr "Two"; PStr "Three"; PStr "Four";
               PStr "Five"; PStr "Six"; PStr "Untitled"]
  /\ get_headlines newsroom (PStr "us") (PNum 2) []
     = get_headlines newsroom (PStr "in") (PNum 5) [].
Proof.
  destruct (get_headlines_ignores_parameters newsroom
              (PStr "us") (PNum 2) (PStr "in") (PNum 5) [])
    as (Hsame & _ & Htitles).
  split; [reflexivity|]. split; [|exact Hsame].
  refine (proj1 (Htitles "k3y" _ seven_articles eq_refl eq_refl eq_refl
                   eq_refl _ eq_refl)).
  discriminate.
Defined.

(** ** Catalog scans *)

Lemma dict_lookup_keys {V : Type} (d : list (string * V)) (k : string) :
  In k (keys d) -> exists v, dict_lookup d k = Some v.
Proof.
  unfold dict_lookup, keys.
  induction d as [|[k0 v0] d IH]; [contradiction|].
  cbn [map fst find]. intros [-> | Hin].
  - rewrite String.eqb_refl. now exists v0.
  - destruct (String.eqb k0 k); [now exists v0 | now apply IH].
Qed.

Lemma find_none_intro {A : Type} (f : A -> bool) (l : list A) :
  (forall x, In x l -> f x = false) -> find f l = None.
Proof.
  induction l as [|a l IH]; intros Hall; [reflexivity|].
  cbn [find]. rewrite (Hall a (or_introl eq_refl)).
  apply IH. intros x Hx. apply Hall. now right.
Qed.

Lemma find_first {A : Type} (f : A -> bool) (before after : list A) (k : A) :
  f k = true -> (forall x, In x before -> f x = false) ->
  find f (before ++ k :: after) = Some k.
Proof.
  intros Hk. induction before as [|a before IH]; intros Hbefore.
  - cbn [app find]. now rewrite Hk.
  - cbn [app find]. rewrite (Hbefore a (or_introl eq_refl)).
    apply IH. intros x Hx. apply Hbefore. now right.
Qed.

Lemma find_unique {A : Type} (f : A -> bool) (l : list A) (k : A) :
  In k l -> f k = true ->
  (forall x, In x l -> f x = true -> x = k) ->
  find f l = Some k.
Proof.
  induction l as [|a l IH]; [contradiction|].
  intros Hin Hk Huniq. cbn [find].
  destruct (f a) eqn:Ha.
  - f_equal. apply Huniq; [now left | assumption].
  - destruct Hin as [-> | Hin]; [congruence|].
    apply IH; try assumption.
    intros x Hx. apply Huniq. now right.
Qed.

(** A key that starts with the query also contains it, so the prefix scan
    never matches where the contains scan has failed. *)
Lemma startswith_str_in (k key : string) :
  startswith k key = true -> str_in key k = true.
Proof. intros H. destruct k; cbn [str_in]; now rewrite H. Qed.

Lemma no_containing_no_prefixed (key : string) (l : list string) :
  find (fun k => str_in key k) l = None ->
  find (fun k => startswith k key) l = None.
Proof.
  intros Hnone. apply find_none_intro. intros k Hk.
  pose proof (find_none _ _ Hnone k Hk) as Hc. cbn beta in Hc.
  destruct (startswith k key) eqn:Hp; [|reflexivity].
  apply startswith_str_in in Hp. congruence.
Qed.

(** ** Replacing *)

Lemma replace_go_exhausted (old new s : string) :
  replace_go old new (Some 0%nat) 0 s = s.
Proof.
  induction s as [|c s IH]; cbn [replace_go count_left andb];
    [reflexivity | now rewrite IH].
Qed.

Lemma startswith_play (s : string) :
  startswith s "play" = true -> exists rest, s = ("play" ++ rest)%string.
Proof.
  intros H.
  destruct s as [|c1 [|c2 [|c3 [|c4 rest]]]]; cbn [startswith] in H;
    repeat match type of H with
           | (?a && ?b)%bool = true => apply andb_true_iff in H as [? H]
           end;
    try discriminate.
  repeat match goal with
         | E : Ascii.eqb _ _ = true |- _ => apply Ascii.eqb_eq in E; subst
         end.
  now exists rest.
Qed.

Lemma replace_leading_play (rest : string) :
  replace "play" "" (Some 1%nat) ("play" ++ rest)%string = rest.
Proof. cbn. apply replace_go_exhausted. Qed.

Lemma replace_space_plus (s : string) :
  replace " " "+" None s = spaces_to_plus s.
Proof.
  unfold replace. induction s as [|c s IH]; [reflexivity|].
  cbn [replace_go spaces_to_plus count_left count_dec startswith andb
         String.length pred].
  rewrite Ascii.eqb_sym, andb_true_r.
  destruct (Ascii.eqb c " "); cbn [append]; now rewrite IH.
Qed.

Lemma spaces_to_plus_app (s t : string) :
  spaces_to_plus (s ++ t)%string
  = (spaces_to_plus s ++ spaces_to_plus t)%string.
Proof. induction s as [|c s IH]; cbn; [reflexivity | now rewrite IH]. Qed.

Lemma spaces_to_plus_word (w : string) :
  no_space w = true -> spaces_to_plus w = w.
Proof.
  induction w as [|c w IH]; cbn; [reflexivity|].
  intros H. apply andb_true_iff in H as [Hc Hw].
  apply negb_true_iff in Hc. now rewrite Hc, IH.
Qed.

Lemma spaces_to_plus_join (ws : list string) :
  Forall (fun w => no_space w = true) ws ->
  spaces_to_plus (join " " ws) = join "+" ws.
Proof.
  induction 1 as [|w ws Hw Hws IH]; [reflexivity|].
  destruct ws as [|w' ws]; [now apply spaces_to_plus_word|].
  rewrite !join_cons2, !spaces_to_plus_app, IH, (spaces_to_plus_word _ Hw).
  reflexivity.
Qed.

(** ** Song lookup *)

(** What [handle_play_command] does with a remainder that is neither empty
    nor a URL, when a catalog is present. *)
Lemma handle_play_command_lookup (env : Env) (library : list (string * string))
    (command_text : string) :
  music env = Some library ->
  is_empty (play_remainder command_text) = false ->
  startswith (play_remainder command_text) "http://" = false ->
  startswith (play_remainder command_text) "https://" = false ->
  handle_play_command env command_text
  = let remainder := play_remainder command_text in
    let key := normalize_key remainder in
    if dict_mem key library then
      url <- getitem library key ;;
      webbrowser_open env url ;;
      speak env ("Playing " ++ remainder ++ ".")%string
    else
      match find (fun k => str_in key k) (keys library) with
      | Some k =>
          url <- getitem library k ;;
          webbrowser_open env url ;;
          speak env ("Playing " ++ k ++ ".")%string
      | None =>
          match find (fun k => startswith k key) (keys library) with
          | Some k =>
              url <- getitem library k ;;
              webbrowser_open env url ;;
              speak env ("Playing " ++ k ++ ".")%string
          | None => search_youtube env remainder
          end
      end.
Proof.
  intros Hm He Hh Hs. unfold handle_play_command. cbv zeta.
  now rewrite He, Hh, Hs, Hm.
Qed.

Lemma getitem_then (library : list (string * string)) (k url : string)
    (f : string -> M unit) (h : trace) :
  dict_lookup library k = Some url ->
  bind (getitem library k) f h = f url h.
Proof. intros Hl. unfold getitem. rewrite Hl. apply bind_ret. Qed.

(** C1 (amended). When the normalized remainder is a key of the catalog,
    [handle_play_command] opens the URL mapped to it and nothing else, and,
    the browser launched, speaks "Playing R." where R is the remainder: the
    lower-cased command with its first "play" taken out, trimmed, its inner
    whitespace kept.  The remainder is here neither empty nor a URL. *)
Theorem exact_match_plays_mapped_url (env : Env)
    (library : list (string * string)) (command_text url : string)
    (h : trace) :
  music env = Some library ->
  is_empty (play_remainder command_text) = false ->
  startswith (play_remainder command_text) "http://" = false ->
  startswith (play_remainder command_text) "https://" = false ->
  dict_lookup library (normalize_key (play_remainder command_text)) = Some url ->
  let remainder := strip (replace "play" "" (Some 1%nat) (lower command_text)) in
  handle_play_command env command_text h
  = match webbrowser_open_fails env h url with
    | None =>
        (Return tt,
         BrowserOpen url
         :: snd (speak env ("Playing " ++ remainder ++ ".")%string
                   (h ++ [BrowserOpen url])))
    | Some e => (Raise e, [BrowserOpen url])
    end
  /\ opened (snd (handle_play_command env command_text h)) = [url].
Proof.
  intros Hm He Hh Hs Hl remainder.
  rewrite (handle_play_command_lookup env library) by assumption.
  cbv zeta. unfold dict_mem. rewrite Hl, (getitem_then _ _ _ _ _ Hl).
  split; [apply open_then_speak | apply open_then_speak_opened].
Qed.

Lemma exact_match_plays_mapped_url_witness :
  handle_play_command (with_music songs bare) "play Shape   of You" []
  = (Return tt, [BrowserOpen "url2"; PrimaryTTS "Playing shape   of you."]).
Proof.
  exact (proj1 (exact_match_plays_mapped_url (with_music songs bare) songs
                  "play Shape   of You" "url2" []
                  eq_refl eq_refl eq_refl eq_refl eq_refl)).
Defined.

(** C1, as stated, fails: for "play Despacito" the text after "play", as
    given, is "Despacito" and normalizes to a key of the catalog, yet the
    reply names the lower-cased remainder. *)
Lemma exact_match_reply_is_lower_cased :
  remainder_as_given "play Despacito" = "Despacito"
  /\ dict_lookup songs (normalize_key (remainder_as_given "play Despacito"))
     = Some "url1"
  /\ handle_play_command (with_music songs bare) "play Despacito" []
     = (Return tt, [BrowserOpen "url1"; PrimaryTTS "Playing despacito."])
  /\ synthesized
       (snd (handle_play_command (with_music songs bare) "play Despacito" []))
     <> map (fun c => (c ++ ".")%string)
          (chunks ("Playing " ++ remainder_as_given "play Despacito" ++ ".")).
Proof. repeat split; try reflexivity. discriminate. Qed.

(** C2. With the normalized remainder not a key of the catalog, the keys
    are scanned for one that contains it before any prefix test: the first
    key that contains it, in the catalog's order, has its URL opened and is
    named in the reply; a key that alone contains it is that first key; and
    only when no key contains it does the starts-with scan run, which then
    finds nothing, so that the web search follows. *)
Theorem contains_tier_before_prefix_tier (env : Env)
    (library : list (string * string)) (command_text : string) (h : trace) :
  music env = Some library ->
  is_empty (play_remainder command_text) = false ->
  startswith (play_remainder command_text) "http://" = false ->
  startswith (play_remainder command_text) "https://" = false ->
  dict_mem (normalize_key (play_remainder command_text)) library = false ->
  let key := normalize_key (play_remainder command_text) in
  let containing := find (fun k => str_in key k) (keys library) in
  (forall k : string,
     containing = Some k ->
     exists url : string,
       dict_lookup library k = Some url
       /\ handle_play_command env command_text h
          = match webbrowser_open_fails env h url with
            | None =>
                (Return tt,
                 BrowserOpen url
                 :: snd (speak env ("Playing " ++ k ++ ".")%string
                           (h ++ [BrowserOpen url])))
            | Some e => (Raise e, [BrowserOpen url])
            end
       /\ opened (snd (handle_play_command env command_text h)) = [url])
  /\ (forall k : string,
        In k (keys library) -> str_in key k = true ->
        (forall k', In k' (keys library) -> str_in key k' = true -> k' = k) ->
        containing = Some k)
  /\ (forall (before after : list string) (k : string),
        keys library = before ++ k :: after ->
        str_in key k = true ->
        (forall k', In k' before -> str_in key k' = false) ->
        containing = Some k)
  /\ (containing = None ->
      find (fun k => startswith k key) (keys library) = None
      /\ handle_play_command env command_text h
         = search_youtube env (play_remainder command_text) h).
Proof.
  intros Hm He Hh Hs Hx key containing.
  rewrite (handle_play_command_lookup env library) by assumption.
  cbv zeta. rewrite Hx. fold key. fold containing.
  split; [|split; [|split]].
  - intros k Hk. rewrite Hk.
    destruct (find_some _ _ Hk) as [Hin _].
    destruct (dict_lookup_keys library k Hin) as [url Hl].
    exists url. rewrite (getitem_then _ _ _ _ _ Hl).
    split; [exact Hl|].
    split; [apply open_then_speak | apply open_then_speak_opened].
  - intros k Hin Hk Huniq. now apply find_unique.
  - intros before after k Hkeys Hk Hbefore. unfold containing.
    rewrite Hkeys. now apply find_first.
  - intros Hnone. rewrite Hnone.
    pose proof (no_containing_no_prefixed key (keys library) Hnone) as Hp.
    now rewrite Hp.
Qed.

Lemma contains_tier_before_prefix_tier_witness :
  handle_play_command (with_music songs bare) "play sky" []
  = (Return tt, [BrowserOpen "url3"; PrimaryTTS "Playing skyfall."])
  /\ handle_play_command (with_music songs bare) "play of you" []
     = (Return tt, [BrowserOpen "url2"; PrimaryTTS "Playing shape of you."]).
Proof.
  destruct (contains_tier_before_prefix_tier (with_music songs bare) songs
              "play sky" [] eq_refl eq_refl eq_refl eq_refl eq_refl)
    as (Hfirst & _).
  destruct (Hfirst "skyfall" eq_refl) as (url & Hurl & Hrun & _).
  injection Hurl as <-.
  split; [exact Hrun | reflexivity].
Defined.

Lemma handle_play_command_unmatched (env : Env) (command_text : string) :
  is_empty (play_remainder command_text) = false ->
  startswith (play_remainder command_text) "http://" = false ->
  startswith (play_remainder command_text) "https://" = false ->
  no_local_match env (normalize_key (play_remainder command_text)) ->
  handle_play_command env command_text
  = search_youtube env (play_remainder command_text).
Proof.
  intros He Hh Hs Hno. unfold no_local_match in Hno.
  destruct (music env) as [library|] eqn:Hm.
  - destruct Hno as (Hx & Hc & Hp).
    rewrite (handle_play_command_lookup env library) by assumption.
    cbv zeta. rewrite Hx.
    now rewrite (find_none_intro (fun k => str_in _ k) _ Hc),
      (find_none_intro (fun k => startswith k _) _ Hp).
  - unfold handle_play_command. cbv zeta. now rewrite He, Hh, Hs, Hm.
Qed.

(** C3 (amended). When the catalog is absent or has no exact, contains or
    starts-with match, [handle_play_command] opens the video-search URL
    whose query is the remainder with every space turned into "+", and
    nothing else; the browser launched, it speaks the message that names
    the remainder.  Words that were one space apart are thus joined by one
    "+"; a longer run of spaces gives as many "+". *)
Theorem unmatched_song_searches_web (env : Env) (command_text : string)
    (h : trace) :
  is_empty (play_remainder command_text) = false ->
  startswith (play_remainder command_text) "http://" = false ->
  startswith (play_remainder command_text) "https://" = false ->
  no_local_match env (normalize_key (play_remainder command_text)) ->
  let remainder := play_remainder command_text in
  let url :=
    ("https://www.youtube.com/results?search_query="
     ++ spaces_to_plus remainder)%string in
  let reply :=
    ("Couldn't find the exact song locally. Searching YouTube for "
     ++ remainder ++ ".")%string in
  handle_play_command env command_text h
  = match webbrowser_open_fails env h url with
    | None =>
        (Return tt,
         BrowserOpen url :: snd (speak env reply (h ++ [BrowserOpen url])))
    | Some e => (Raise e, [BrowserOpen url])
    end
  /\ opened (snd (handle_play_command env command_text h)) = [url]
  /\ (forall ws : list string,
        remainder = join " " ws ->
        Forall (fun w => no_space w = true) ws ->
        spaces_to_plus remainder = join "+" ws).
Proof.
  intros He Hh Hs Hno remainder url reply.
  rewrite handle_play_command_unmatched by assumption.
  unfold search_youtube. cbv zeta. rewrite replace_space_plus.
  fold remainder. fold url. fold reply.
  split; [apply open_then_speak|].
  split; [apply open_then_speak_opened|].
  intros ws -> Hws. now apply spaces_to_plus_join.
Qed.

Lemma unmatched_song_searches_web_witness :
  handle_play_command (with_music songs bare) "play hey jude" []
  = (Return tt,
     [BrowserOpen "https://www.youtube.com/results?search_query=hey+jude";
      PrimaryTTS "Couldn't find the exact song locally.";
      PrimaryTTS "Searching YouTube for hey jude."]).
Proof.
  refine (proj1 (unmatched_song_searches_web (with_music songs bare)
                   "play hey jude" [] eq_refl eq_refl eq_refl _)).
  unfold no_local_match. cbn [music with_music].
  split; [reflexivity|].
  split; intros k Hk; cbn in Hk;
    repeat (destruct Hk as [<- | Hk]; [reflexivity|]); contradiction.
Defined.

(** C3, as stated, fails: two spaces between the words of the query give
    two "+" in the search URL, not the single "+" that joining the words
    would give. *)
Lemma search_query_keeps_space_runs :
  play_remainder "play foo  bar" = "foo  bar"
  /\ plus_joined_words (play_remainder "play foo  bar") = "foo+bar"
  /\ opened (snd (handle_play_command (with_music songs bare)
                    "play foo  bar" []))
     = ["https://www.youtube.com/results?search_query=foo++bar"]
  /\ opened (snd (handle_play_command (with_music songs bare)
                    "play foo  bar" []))
     <> [("https://www.youtube.com/results?search_query="
          ++ plus_joined_words (play_remainder "play foo  bar"))%string].
Proof. repeat split; try reflexivity. discriminate. Qed.

(** ** The leading "play" *)

Lemma play_remainder_leading (c : string) :
  startswith (lower c) "play" = true ->
  exists rest : string,
    lower c = ("play" ++ rest)%string /\ play_remainder c = strip rest.
Proof.
  intros Hp. destruct (startswith_play _ Hp) as [rest Hrest].
  exists rest. split; [exact Hrest|].
  unfold play_remainder. now rewrite Hrest, replace_leading_play.
Qed.

(** C5 (amended). A command the dispatcher routes to song lookup has a
    lower-cased text that begins with the four letters "play", whether or
    not a word ends there; the remainder is what follows those four
    letters, trimmed.  When it is empty, [handle_play_command] speaks
    "Which song should I play?" and returns: no URL is opened and nothing
    else is spoken. *)
Theorem play_remainder_after_leading_play (env : Env) (c : string)
    (h : trace) :
  classify (lower c) = PlayMusic ->
  dispatch env c = handle_play_command env c
  /\ (exists rest : string,
        lower c = ("play" ++ rest)%string /\ play_remainder c = strip rest)
  /\ (is_empty (play_remainder c) = true ->
      handle_play_command env c h = speak env "Which song should I play?" h
      /\ fst (handle_play_command env c h) = Return tt
      /\ opened (snd (handle_play_command env c h)) = []
      /\ synthesized (snd (handle_play_command env c h))
         = ["Which song should I play?."]).
Proof.
  intros Hroute.
  split; [now rewrite dispatch_by_intent, Hroute|].
  split.
  - apply play_remainder_leading. unfold classify in Hroute.
    repeat match type of Hroute with
           | (if ?b then _ else _) = _ =>
               destruct b eqn:?; try discriminate
           end.
    reflexivity.
  - intros He. unfold handle_play_command. cbv zeta. rewrite He.
    destruct (speak_run env "Which song should I play?" h)
      as (Hr & Hs & Ho & _).
    now repeat split.
Qed.

Lemma play_remainder_after_leading_play_witness :
  play_remainder "Play  " = ""
  /\ processCommand bare "Play  " []
     = (Return tt, [PrimaryTTS "Which song should I play?."])
  /\ (exists rest : string,
        lower "play Despacito" = ("play" ++ rest)%string
        /\ play_remainder "play Despacito" = strip rest).
Proof.
  split; [reflexivity|]. split; [reflexivity|].
  exact (proj1 (proj2 (play_remainder_after_leading_play bare
                         "play Despacito" [] eq_refl))).
Defined.

(** C5, as stated, fails: "playlist" is routed to song lookup although
    its first word is not "play", and its remainder is "list", where
    taking out a leading whole word "play" leaves the command as it is. *)
Lemma leading_play_need_not_be_a_word :
  classify (lower (strip "playlist")) = PlayMusic
  /\ split (lower "playlist") = ["playlist"]
  /\ play_remainder "playlist" = "list"
  /\ remainder_whole_word "playlist" = "playlist"
  /\ play_remainder "playlist" <> remainder_whole_word "playlist"
  /\ opened (snd (processCommand bare "playlist" []))
     = ["https://www.youtube.com/results?search_query=list"].
Proof. repeat split; try reflexivity. discriminate. Qed.

(** A title that is a number makes [speak] raise inside the news branch;
    the dispatcher's handler turns that into the apology. *)
Example numeric_title_is_apologised_for :
  fst (dispatch numbered_newsroom "news" []) = Raise (Exception "AttributeError")
  /\ processCommand numbered_newsroom "news" []
     = (Return tt,
        [PrimaryTTS "Fetching the top headlines."; HttpGet (news_url "k3y") 8;
         PrimaryTTS "One."; Sleep 200;
         Print "Error in processCommand:"; PrintExc; PrimaryTTS apology]).
Proof. split; reflexivity. Qed.

(** * Further properties of the program *)

(** ** Blank commands *)

(** X1. A command made of whitespace only (or empty) is a no-op:
    [processCommand] returns at once, with no collaborator called. *)
Theorem processCommand_blank (env : Env) (c : string) (h : trace) :
  all_ws c = true -> processCommand env c h = (Return tt, []).
Proof.
  intros Hc. unfold processCommand, strip.
  now rewrite (lstrip_all_ws _ Hc).
Qed.

Lemma processCommand_blank_witness :
  processCommand headless "   " [] = (Return tt, []).
Proof. exact (processCommand_blank headless "   " [] eq_refl). Defined.

(** ** Opening a site *)

Lemma classify_nonempty (c : string) (url reply : string) :
  classify (lower (strip c)) = OpenSite url reply ->
  is_empty (strip c) = false.
Proof.
  destruct (strip c); [discriminate | reflexivity].
Qed.

(** X2. A command the dispatcher classifies as opening a site gives that
    site's URL to the browser, and no other URL, whatever else the command
    says; [processCommand] returns normally.  The browser launched, the
    site's reply is the one thing spoken; the launch failing, the apology
    is. *)
Theorem open_site_run (env : Env) (c url reply : string) (h : trace) :
  classify (lower (strip c)) = OpenSite url reply ->
  fst (processCommand env c h) = Return tt
  /\ opened (snd (processCommand env c h)) = [url]
  /\ synthesized (snd (processCommand env c h))
     = match webbrowser_open_fails env h url with
       | None => map (fun k => (k ++ ".")%string) (chunks reply)
       | Some _ => [apology]
       end.
Proof.
  intros Hsite. pose proof (classify_nonempty c url reply Hsite) as Hc.
  unfold processCommand, try_except.
  rewrite Hc, dispatch_by_intent, Hsite, open_then_speak.
  destruct (webbrowser_open_fails env h url) as [e|].
  - unfold print, print_exc. rewrite !bind_emit. cbn [fst snd app].
    match goal with
    | |- context [speak env apology ?h'] =>
        destruct (speak_run env apology h') as (Hr & Hs & Ho & _)
    end.
    rewrite Hr.
    change (BrowserOpen url :: Print "Error in processCommand:" :: PrintExc :: ?t)
      with ([BrowserOpen url; Print "Error in processCommand:"; PrintExc] ++ t).
    rewrite opened_app, synthesized_app, Ho, Hs. now repeat split.
  - destruct (speak_run env reply (h ++ [BrowserOpen url])) as (_ & Hs & Ho & _).
    cbn [fst snd].
    change (BrowserOpen url :: ?t) with ([BrowserOpen url] ++ t).
    rewrite opened_app, synthesized_app, Ho, Hs. now repeat split.
Qed.

Lemma open_site_run_witness :
  opened (snd (processCommand (with_music songs bare)
                 "Play the news, then OPEN YouTube please" []))
  = ["https://youtube.com"]
  /\ synthesized (snd (processCommand (with_music songs bare)
                         "Play the news, then OPEN YouTube please" []))
     = ["Opening YouTube."].
Proof.
  destruct (open_site_run (with_music songs bare)
              "Play the news, then OPEN YouTube please"
              "https://youtube.com" "Opening YouTube." [] eq_refl)
    as (_ & Ho & Hs).
  split; [exact Ho | exact Hs].
Defined.

(** ** Playing a URL *)

(** X3. When what follows "play" begins with http:// or https://, the
    lower-cased remainder itself is opened as the URL and "Playing from
    URL." is spoken; the catalog plays no part, present or not. *)
Theorem play_url_directly (env : Env) (library : list (string * string))
    (command_text : string) (h : trace) :
  startswith (play_remainder command_text) "http://" = true
  \/ startswith (play_remainder command_text) "https://" = true ->
  let url := strip (replace "play" "" (Some 1%nat) (lower command_text)) in
  handle_play_command env command_text h
  = match webbrowser_open_fails env h url with
    | None =>
        (Return tt,
         BrowserOpen url
         :: snd (speak env "Playing from URL." (h ++ [BrowserOpen url])))
    | Some e => (Raise e, [BrowserOpen url])
    end
  /\ opened (snd (handle_play_command env command_text h)) = [url]
  /\ handle_play_command (with_music library env) command_text h
     = handle_play_command env command_text h.
Proof.
  intros Hurl url.
  assert (Hne : is_empty (play_remainder command_text) = false).
  { destruct (play_remainder command_text); [|reflexivity].
    destruct Hurl; discriminate. }
  assert (Hor : startswith (play_remainder command_text) "http://"
                || startswith (play_remainder command_text) "https://" = true).
  { apply orb_true_iff. exact Hurl. }
  assert (Hrun : forall e : Env,
            handle_play_command e command_text
            = (webbrowser_open e (play_remainder command_text) ;;
               speak e "Playing from URL.")).
  { intros e. unfold handle_play_command. cbv zeta. now rewrite Hne, Hor. }
  rewrite !Hrun. fold (play_remainder command_text) in url. fold url.
  split; [apply open_then_speak|].
  split; [apply open_then_speak_opened|].
  reflexivity.
Qed.

Lemma play_url_directly_witness :
  handle_play_command (with_music songs bare)
    "play HTTPS://Example.com/Watch?v=AbC" []
  = (Return tt,
     [BrowserOpen "https://example.com/watch?v=abc";
      PrimaryTTS "Playing from URL."]).
Proof.
  exact (proj1 (play_url_directly (with_music songs bare) songs
                  "play HTTPS://Example.com/Watch?v=AbC" []
                  (or_intror eq_refl))).
Defined.

(** ** Every play request opens one URL *)

Lemma dict_mem_lookup {V : Type} (k : string) (d : list (string * V)) :
  dict_mem k d = true -> exists v, dict_lookup d k = Some v.
Proof.
  unfold dict_mem. destruct (dict_lookup d k) as [v|]; [|discriminate].
  now exists v.
Qed.

(** X4. A play command with a non-empty remainder always ends in one
    browser launch followed by one reply: whichever tier answers, exactly
    one URL is opened, no catalog access raises [KeyError], and the command
    returns normally unless the launch itself raises. *)
Theorem play_opens_one_url (env : Env) (command_text : string) (h : trace) :
  is_empty (play_remainder command_text) = false ->
  exists url reply : string,
    handle_play_command env command_text h
    = (webbrowser_open env url ;; speak env reply) h
    /\ opened (snd (handle_play_command env command_text h)) = [url]
    /\ (webbrowser_open_fails env h url = None ->
        fst (handle_play_command env command_text h) = Return tt).
Proof.
  intros Hne.
  assert (Hgoal : exists url reply : string,
            handle_play_command env command_text h
            = (webbrowser_open env url ;; speak env reply) h).
  { unfold handle_play_command. cbv zeta. rewrite Hne.
    destruct (startswith _ "http://" || startswith _ "https://");
      [now eexists; eexists|].
    destruct (music env) as [library|];
      [|unfold search_youtube; now eexists; eexists].
    destruct (dict_mem _ library) eqn:Hx.
    { destruct (dict_mem_lookup _ _ Hx) as [url Hl].
      exists url. eexists. now rewrite (getitem_then _ _ _ _ _ Hl). }
    destruct (find (fun k => str_in _ k) (keys library)) as [k|] eqn:Hc.
    { destruct (find_some _ _ Hc) as [Hin _].
      destruct (dict_lookup_keys library k Hin) as [url Hl].
      exists url. eexists. now rewrite (getitem_then _ _ _ _ _ Hl). }
    destruct (find (fun k => startswith k _) (keys library)) as [k|] eqn:Hp.
    { destruct (find_some _ _ Hp) as [Hin _].
      destruct (dict_lookup_keys library k Hin) as [url Hl].
      exists url. eexists. now rewrite (getitem_then _ _ _ _ _ Hl). }
    unfold search_youtube. now eexists; eexists. }
  destruct Hgoal as (url & reply & Hrun).
  exists url, reply. rewrite Hrun.
  split; [reflexivity|]. split; [apply open_then_speak_opened|].
  intros Hok. now rewrite open_then_speak, Hok.
Qed.

Lemma play_opens_one_url_witness :
  exists url reply : string,
    handle_play_command (with_music songs bare) "play full of" []
    = (webbrowser_open (with_music songs bare) url ;;
       speak (with_music songs bare) reply) []
    /\ opened (snd (handle_play_command (with_music songs bare)
                      "play full of" [])) = [url]
    /\ (webbrowser_open_fails (with_music songs bare) [] url = None ->
        fst (handle_play_command (with_music songs bare) "play full of" [])
        = Return tt).
Proof.
  exact (play_opens_one_url (with_music songs bare) "play full of" [] eq_refl).
Defined.

(** ** The chat service *)

Lemma aiProcess_run (env : Env) (command : string) (h : trace) :
  aiProcess env command h
  = match OPENAI_API_KEY env, OpenAI env with
    | Some key, true =>
        match chat_completions_create env h key command with
        | ChatContent (Some content) =>
            (Return (strip content),
             [ChatCompletion "gpt-5" system_prompt command 250])
        | ClientRaises _ =>
            (Return ai_unreachable, [Print "Error calling OpenAI:"; PrintExc])
        | _ =>
            (Return ai_unreachable,
             [ChatCompletion "gpt-5" system_prompt command 250;
              Print "Error calling OpenAI:"; PrintExc])
        end
    | _, _ => (Return ai_not_configured, [])
    end.
Proof.
  unfold aiProcess, try_except, bind, print, print_exc, emit, ret.
  destruct (OPENAI_API_KEY env) as [key|]; [|reflexivity].
  destruct (OpenAI env); [|reflexivity].
  now destruct (chat_completions_create env h key command)
    as [e|e|[content|]].
Qed.

Lemma aiProcess_effects (env : Env) (command : string) (h : trace) :
  (exists answer : string, fst (aiProcess env command h) = Return answer)
  /\ opened (snd (aiProcess env command h)) = []
  /\ synthesized (snd (aiProcess env command h)) = [].
Proof.
  rewrite aiProcess_run.
  destruct (OPENAI_API_KEY env) as [key|]; [|repeat split; now eexists].
  destruct (OpenAI env); [|repeat split; now eexists].
  destruct (chat_completions_create env h key command) as [e|e|[content|]];
    repeat split; now eexists.
Qed.

(** X5. [aiProcess] never raises.  Without a key or without the openai
    package it answers with the configuration message and calls nothing.
    Otherwise it builds the client and, the client built, makes one chat
    call with the command as the user prompt: it answers with the trimmed
    content, or, on any failure (of the client, in which case no call is
    made, of the call, or a [None] content), logs and answers that the
    service was not reached. *)
Theorem aiProcess_always_answers (env : Env) (command : string) (h : trace) :
  aiProcess env command h
  = match OPENAI_API_KEY env, OpenAI env with
    | Some key, true =>
        match chat_completions_create env h key command with
        | ChatContent (Some content) =>
            (Return (strip content),
             [ChatCompletion "gpt-5" system_prompt command 250])
        | ClientRaises _ =>
            (Return ai_unreachable, [Print "Error calling OpenAI:"; PrintExc])
        | _ =>
            (Return ai_unreachable,
             [ChatCompletion "gpt-5" system_prompt command 250;
              Print "Error calling OpenAI:"; PrintExc])
        end
    | _, _ => (Return ai_not_configured, [])
    end
  /\ (exists answer : string, fst (aiProcess env command h) = Return answer)
  /\ opened (snd (aiProcess env command h)) = []
  /\ synthesized (snd (aiProcess env command h)) = [].
Proof.
  unfold aiProcess, try_except, bind, print, print_exc, emit, ret.
  destruct (OPENAI_API_KEY env) as [key|]; [|repeat split; now eexists].
  destruct (OpenAI env); [|repeat split; now eexists].
  destruct (chat_completions_create env h key command) as [e|e|[content|]];
    repeat split; now eexists.
Qed.

(** X6. A command that falls through to the chat branch has "Let me
    check." spoken, then the answer of [aiProcess] on the trimmed command;
    nothing in the branch raises, so the apology is never spoken there, and
    no URL is opened.  With the chat service configured, the one prompt
    sent is the trimmed command, its letter case kept, and none is sent
    when the client cannot be built. *)
Theorem ask_ai_run (env : Env) (c : string) (h : trace) :
  is_empty (strip c) = false ->
  classify (lower (strip c)) = AskAI ->
  let waited := snd (speak env "Let me check." h) in
  exists answer : string,
    fst (aiProcess env (strip c) (h ++ waited)) = Return answer
    /\ fst (processCommand env c h) = Return tt
    /\ synthesized (snd (processCommand env c h))
       = "Let me check." :: map (fun k => (k ++ ".")%string) (chunks answer)
    /\ opened (snd (processCommand env c h)) = []
    /\ (forall key : string,
          OPENAI_API_KEY env = Some key -> OpenAI env = true ->
          prompts (snd (processCommand env c h))
          = match chat_completions_create env (h ++ waited) key (strip c) with
            | ClientRaises _ => []
            | _ => [strip c]
            end).
Proof.
  intros Hc Hai waited.
  pose proof (aiProcess_run env (strip c) (h ++ waited)) as Hrun.
  destruct (aiProcess_effects env (strip c) (h ++ waited))
    as ([answer Hans] & Ho & Hs).
  exists answer. split; [exact Hans|].
  unfold processCommand, try_except. rewrite Hc, dispatch_by_intent, Hai.
  rewrite bind_speak. cbv beta. fold waited.
  rewrite (bind_run _ _ _ _ _ (run_eta _ _ _ Hans)).
  set (t_ai := snd (aiProcess env (strip c) (h ++ waited))) in *.
  destruct (speak_run env "Let me check." h) as (_ & Hs0 & Ho0 & _).
  destruct (speak_run env answer ((h ++ waited) ++ t_ai)) as (Hr1 & Hs1 & Ho1 & _).
  fold waited in Hs0, Ho0. cbn [fst snd]. rewrite Hr1. cbn [fst snd].
  split; [reflexivity|].
  rewrite !synthesized_app, !opened_app, Hs0, Hs, Hs1, Ho0, Ho, Ho1.
  split; [reflexivity|]. split; [reflexivity|].
  intros key Hkey Hopen. unfold prompts. rewrite !flat_map_app.
  assert (Hquiet : forall text h0,
            flat_map (fun ev => match ev with
                                | ChatCompletion _ _ user _ => [user]
                                | _ => []
                                end) (snd (speak env text h0)) = []).
  { intros text h0. unfold speak. destruct (is_empty text); [reflexivity|].
    generalize (chunks text) as l. intros l. revert h0.
    induction l as [|k l IH]; intros h0; [reflexivity|].
    cbn [for_each].
    rewrite (bind_run _ _ _ _ _ (speak_with_pygame_run env _ h0)).
    cbn [snd]. rewrite flat_map_app, IH, app_nil_r.
    destruct (gtts_pygame_fails env h0 _); [|reflexivity].
    now destruct (pyttsx3_fails env _ _). }
  unfold waited. rewrite !Hquiet. cbn [app]. rewrite app_nil_r.
  unfold t_ai. rewrite Hrun, Hkey, Hopen.
  fold waited.
  now destruct (chat_completions_create env (h ++ waited) key (strip c))
    as [e|e|[content|]].
Qed.

Lemma ask_ai_run_witness :
  synthesized
    (snd (processCommand (chat_env (ChatContent (Some " It is noon. ")))
            "  What TIME is it?  " []))
  = ["Let me check."; "It is noon."]
  /\ prompts
       (snd (processCommand (chat_env (ChatContent (Some " It is noon. ")))
               "  What TIME is it?  " []))
     = ["What TIME is it?"]
  /\ prompts
       (snd (processCommand (chat_env (ClientRaises (Exception "OpenAIError")))
               "  What TIME is it?  " []))
     = [].
Proof.
  destruct (ask_ai_run (chat_env (ChatContent (Some " It is noon. ")))
              "  What TIME is it?  " [] eq_refl eq_refl)
    as (answer & Hans & _ & Hs & _ & Hp).
  injection Hans as <-.
  split; [exact Hs|]. split; [exact (Hp "sk" eq_refl eq_refl)|].
  destruct (ask_ai_run (chat_env (ClientRaises (Exception "OpenAIError")))
              "  What TIME is it?  " [] eq_refl eq_refl)
    as (answer' & _ & _ & _ & _ & Hp').
  exact (Hp' "sk" eq_refl eq_refl).
Defined.

(** ** Failures of the news service *)

Lemma map_M_titles_length (items : list pyval) (h : trace)
    (ys : list pyval) :
  fst (map_M (fun a => py_get a "title" (PStr "Untitled")) items h) = Return ys ->
  List.length ys = List.length items.
Proof.
  revert h ys. induction items as [|a items IH]; intros h ys.
  - cbn. now intros [= <-].
  - cbn [map_M]. destruct a; try discriminate.
    unfold py_get at 1. rewrite bind_ret. unfold bind at 1.
    specialize (IH h).
    destruct (map_M _ items h) as [[zs|e] o]; [|discriminate].
    cbn. intros [= <-]. cbn. f_equal. now apply IH.
Qed.

(** X7. With a key configured, an answer whose status is not 200 gives
    the one-headline list "Failed to fetch news: HTTP <status>", the status
    in decimal; the body is not read. *)
Theorem get_headlines_http_status (env : Env) (country page_size : pyval)
    (h : trace) (key : string) (status : Z) (body : option pyval) :
  NEWS_API_KEY env = Some key ->
  is_empty key = false ->
  requests_get env h (news_url key) = HttpResponse status body ->
  status <> 200%Z ->
  get_headlines env country page_size h
  = (Return [PStr ("Failed to fetch news: HTTP " ++ str_of_int status)%string],
     [HttpGet (news_url key) 8; Print "News API HTTP"]).
Proof.
  intros Hkey Hne Hresp Hstatus.
  unfold get_headlines. rewrite Hkey.
  destruct key as [|k0 key]; [discriminate|].
  fold (news_url (String k0 key)). revert Hresp.
  generalize (news_url (String k0 key)) as url. intros url Hresp.
  unfold try_except, bind at 1, requests_get_call. rewrite Hresp.
  cbn [fst snd]. apply Z.eqb_neq in Hstatus. rewrite Hstatus.
  cbn [negb]. unfold print. rewrite bind_emit. reflexivity.
Qed.

Lemma get_headlines_http_status_witness :
  get_headlines
    (news_env (HttpResponse 401 None))
    (PStr "in") (PNum 5) []
  = (Return [PStr "Failed to fetch news: HTTP 401"],
     [HttpGet (news_url "k3y") 8; Print "News API HTTP"]).
Proof.
  refine (get_headlines_http_status (news_env (HttpResponse 401 None)) _ _ [] "k3y" 401 None
            eq_refl eq_refl eq_refl _).
  discriminate.
Defined.

(** X8. With a key configured, a request that raises, a 200 answer whose
    body is not JSON, and a 200 answer whose JSON is not an object all give
    the one-headline list "Error fetching news." after one log line:
    nothing is raised to the caller. *)
Theorem get_headlines_unusable_answer (env : Env) (country page_size : pyval)
    (h : trace) (key : string) :
  NEWS_API_KEY env = Some key ->
  is_empty key = false ->
  (exists e, requests_get env h (news_url key) = HttpRaises e)
  \/ requests_get env h (news_url key) = HttpResponse 200 None
  \/ (exists data,
        requests_get env h (news_url key) = HttpResponse 200 (Some data)
        /\ is_dict data = false) ->
  get_headlines env country page_size h
  = (Return [PStr "Error fetching news."],
     [HttpGet (news_url key) 8; Print "Exception fetching news:"]).
Proof.
  intros Hkey Hne Hresp.
  unfold get_headlines. rewrite Hkey.
  destruct key as [|k0 key]; [discriminate|].
  fold (news_url (String k0 key)). revert Hresp.
  generalize (news_url (String k0 key)) as url. intros url Hresp.
  unfold try_except, bind at 1, requests_get_call.
  destruct Hresp as [[e ->] | [-> | (data & -> & Hd)]]; try reflexivity.
  destruct data; try discriminate; reflexivity.
Qed.

Lemma get_headlines_unusable_answer_witness :
  get_headlines
    (news_env (HttpResponse 200 (Some (PList [article "One"]))))
    (PStr "in") (PNum 5) []
  = (Return [PStr "Error fetching news."],
     [HttpGet (news_url "k3y") 8; Print "Exception fetching news:"]).
Proof.
  refine (get_headlines_unusable_answer
            (news_env (HttpResponse 200 (Some (PList [article "One"]))))
            _ _ [] "k3y" eq_refl eq_refl _).
  right. right. now eexists.
Defined.

(** X9. With a key configured, a 200 answer whose JSON object has no
    "articles" entry, or has one that is falsy (an empty list, [None], 0,
    an empty string), gives the one-headline list "No news articles
    found.". *)
Theorem get_headlines_no_articles (env : Env) (country page_size : pyval)
    (h : trace) (key : string) (entries : list (string * pyval)) :
  NEWS_API_KEY env = Some key ->
  is_empty key = false ->
  requests_get env h (news_url key) = HttpResponse 200 (Some (PDict entries)) ->
  match dict_lookup entries "articles" with
  | Some articles => truthy articles = false
  | None => True
  end ->
  get_headlines env country page_size h
  = (Return [PStr "No news articles found."], [HttpGet (news_url key) 8]).
Proof.
  intros Hkey Hne Hresp Harts.
  unfold get_headlines. rewrite Hkey.
  destruct key as [|k0 key]; [discriminate|].
  fold (news_url (String k0 key)). revert Hresp.
  generalize (news_url (String k0 key)) as url. intros url Hresp.
  unfold try_except, bind at 1, requests_get_call. rewrite Hresp.
  cbn [fst snd negb Z.eqb Pos.eqb].
  unfold response_json. rewrite bind_ret.
  unfold py_get at 1. rewrite bind_ret.
  destruct (dict_lookup entries "articles") as [articles|].
  - now rewrite Harts.
  - reflexivity.
Qed.

Lemma get_headlines_no_articles_witness :
  get_headlines
    (news_env (HttpResponse 200 (Some (PDict [("status", PStr "ok")]))))
    (PStr "in") (PNum 5) []
  = (Return [PStr "No news articles found."], [HttpGet (news_url "k3y") 8]).
Proof.
  exact (get_headlines_no_articles
           (news_env (HttpResponse 200 (Some (PDict [("status", PStr "ok")]))))
           _ _ [] "k3y" [("status", PStr "ok")]
           eq_refl eq_refl eq_refl I).
Defined.

(** ** The headline list is never empty *)

Lemma titles_or_error (items : list pyval) (h : trace) :
  items <> [] ->
  exists headlines : list pyval,
    fst (try_except
           (map_M (fun a => py_get a "title" (PStr "Untitled")) items)
           (fun _ => print "Exception fetching news:" ;;
                     ret [PStr "Error fetching news."]) h)
    = Return headlines
    /\ headlines <> [].
Proof.
  intros Hne. unfold try_except.
  destruct (map_M _ items h) as [[ys|e] o] eqn:Hm.
  - exists ys. split; [reflexivity|].
    pose proof (map_M_titles_length items h ys) as Hlen.
    rewrite Hm in Hlen. specialize (Hlen eq_refl).
    destruct ys; [|discriminate]. destruct items; [contradiction | discriminate].
  - eexists. unfold print. rewrite bind_emit. cbn. split; [reflexivity | discriminate].
Qed.

(** X10. [get_headlines] never raises and never returns an empty list:
    whatever the key, the service's answer or the shape of its JSON, the
    caller gets at least one headline to speak, real or an explanation,
    and at most one HTTP request has been made. *)
Theorem get_headlines_never_empty (env : Env) (country page_size : pyval)
    (h : trace) :
  exists headlines : list pyval,
    fst (get_headlines env country page_size h) = Return headlines
    /\ headlines <> []
    /\ (List.length (fetched (snd (get_headlines env country page_size h)))
        <= 1)%nat.
Proof.
  assert (Hfetch : (List.length
                      (fetched (snd (get_headlines env country page_size h)))
                    <= 1)%nat).
  { rewrite get_headlines_fetched.
    destruct (NEWS_API_KEY env) as [[|k0 key]|]; cbn; lia. }
  enough (exists headlines : list pyval,
            fst (get_headlines env country page_size h) = Return headlines
            /\ headlines <> []) as (hl & H1 & H2) by (exists hl; auto).
  clear Hfetch. unfold get_headlines.
  destruct (NEWS_API_KEY env) as [[|k0 key]|];
    try (eexists; split; [reflexivity | discriminate]).
  generalize ("https://newsapi.org/v2/top-headlines?country=in&apiKey="
              ++ String k0 key)%string as url.
  intros url. unfold try_except at 1, bind at 1, requests_get_call.
  destruct (requests_get env h url) as [e|status body];
    [eexists; split; [reflexivity | discriminate]|].
  cbn [fst snd]. destruct (negb (status =? 200)%Z);
    [eexists; split; [reflexivity | discriminate]|].
  destruct body as [data|];
    [|eexists; split; [reflexivity | discriminate]].
  unfold response_json. rewrite bind_ret.
  destruct data; try (eexists; split; [reflexivity | discriminate]).
  unfold py_get at 1. rewrite bind_ret.
  set (articles := match dict_lookup entries "articles" with
                   | Some v => v
                   | None => PList []
                   end).
  destruct (truthy articles) eqn:Ht; cbn [negb];
    [|eexists; split; [reflexivity | discriminate]].
  destruct articles as [|b|z|s|items|d];
    try (eexists; split; [reflexivity | discriminate]).
  - (* a non-empty string: its characters have no [get] *)
    destruct s as [|c s]; [discriminate|].
    eexists; split; [reflexivity | discriminate].
  - (* a list *)
    unfold py_iter. rewrite bind_ret.
    assert (Hne : items <> []) by (destruct items; [discriminate | discriminate]).
    destruct (titles_or_error items (h ++ [HttpGet url 8]) Hne)
      as (hl & Hhl & Hnn).
    exists hl. split; [|exact Hnn].
    unfold try_except in Hhl.
    destruct (map_M _ items (h ++ [HttpGet url 8])) as [[ys|e] o];
      cbn [fst snd] in *; [exact Hhl|].
    unfold print in *. rewrite bind_emit in *. exact Hhl.
  - (* a non-empty dict: its keys have no [get] *)
    destruct d as [|[k v] d]; [discriminate|].
    eexists; split; [reflexivity | discriminate].
Qed.

(** ** Speaking the headlines *)

Lemma get_headlines_trace (env : Env) (country page_size : pyval) (h : trace) :
  exists url : string,
    snd (get_headlines env country page_size h) = []
    \/ snd (get_headlines env country page_size h) = [HttpGet url 8]
    \/ exists msg, snd (get_headlines env country page_size h)
                   = [HttpGet url 8; Print msg].
Proof.
  remember (get_headlines env country page_size h) as run eqn:Hrun.
  unfold get_headlines in Hrun.
  destruct (NEWS_API_KEY env) as [[|k0 key]|];
    try (exists EmptyString; subst run; now left).
  revert Hrun.
  generalize ("https://newsapi.org/v2/top-headlines?country=in&apiKey="
              ++ String k0 key)%string as url.
  intros url Hrun. exists url.
  unfold try_except, bind at 1, requests_get_call in Hrun.
  destruct (requests_get env h url) as [e|status body];
    [subst run; right; right; eexists; reflexivity|].
  cbn [fst snd] in Hrun. destruct (negb (status =? 200)%Z);
    [subst run; right; right; eexists; reflexivity|].
  destruct body as [data|]; [|subst run; right; right; eexists; reflexivity].
  unfold response_json in Hrun. rewrite bind_ret in Hrun.
  destruct data; try (subst run; right; right; eexists; reflexivity).
  unfold py_get at 1 in Hrun. rewrite bind_ret in Hrun.
  destruct (match dict_lookup entries "articles" with
            | Some v => v
            | None => PList []
            end) as [|b|z|s|items|d]; cbn [truthy negb] in Hrun;
    repeat match type of Hrun with
           | context [if ?b then _ else _] => destruct b
           end;
    try (subst run; right; left; reflexivity);
    try (subst run; right; right; eexists; reflexivity).
  all: unfold py_iter in Hrun; rewrite bind_ret in Hrun.
  all: match type of Hrun with
       | context [map_M ?f ?l ?h'] =>
           pose proof (map_M_titles_silent l h') as Hsilent;
           destruct (map_M f l h') as [[ys|e] o]
       end.
  all: cbn [snd] in Hsilent; subst o run.
  all: try (right; left; reflexivity); try (right; right; eexists; reflexivity).
Qed.

Lemma sleeps_app (s t : trace) : sleeps (s ++ t) = sleeps s ++ sleeps t.
Proof. apply flat_map_app. Qed.

Lemma speak_sleeps (env : Env) (text : string) (h : trace) :
  sleeps (snd (speak env text h)) = [].
Proof.
  unfold speak. destruct (is_empty text); [reflexivity|].
  generalize (chunks text) as l. intros l. revert h.
  induction l as [|k l IH]; intros h; [reflexivity|].
  cbn [for_each].
  rewrite (bind_run _ _ _ _ _ (speak_with_pygame_run env _ h)).
  cbn [snd]. rewrite sleeps_app, IH, app_nil_r.
  destruct (gtts_pygame_fails env h _); [|reflexivity].
  now destruct (pyttsx3_fails env _ _).
Qed.

Lemma speak_obj_speakable (env : Env) (v : pyval) (h : trace) :
  speakable v = true ->
  fst (speak_obj env v h) = Return tt
  /\ synthesized (snd (speak_obj env v h)) = headline_chunks v
  /\ opened (snd (speak_obj env v h)) = []
  /\ sleeps (snd (speak_obj env v h)) = [].
Proof.
  intros Hv. destruct v as [|b|z|s|items|d].
  all: try (unfold speak_obj; unfold speakable in Hv; cbn [is_str orb] in Hv;
            rewrite Hv; now repeat split).
  rewrite speak_obj_str.
  destruct (speak_run env s h) as (Hr & Hs & Ho & _).
  repeat split; try assumption. apply speak_sleeps.
Qed.

Lemma speak_headlines_run (env : Env) (headlines : list pyval) (h : trace) :
  forallb speakable headlines = true ->
  let run := for_each headlines (fun v => speak_obj env v ;; sleep 200) h in
  fst run = Return tt
  /\ synthesized (snd run) = flat_map headline_chunks headlines
  /\ opened (snd run) = []
  /\ sleeps (snd run) = map (fun _ => 200%Z) headlines.
Proof.
  revert h. induction headlines as [|v l IH]; intros h Hall;
    [now repeat split|].
  cbn [forallb] in Hall. apply andb_true_iff in Hall as [Hv Hl].
  cbn [for_each flat_map map].
  destruct (speak_obj_speakable env v h Hv) as (Hr & Hs & Ho & Hz).
  assert (Hstep : (speak_obj env v ;; sleep 200) h
                  = (Return tt, snd (speak_obj env v h) ++ [Sleep 200])).
  { unfold bind. rewrite (run_eta _ _ _ Hr). reflexivity. }
  rewrite (bind_run _ _ _ _ _ Hstep).
  destruct (IH (h ++ snd (speak_obj env v h) ++ [Sleep 200]) Hl)
    as (IHr & IHs & IHo & IHz).
  cbn [fst snd].
  rewrite !synthesized_app, !opened_app, !sleeps_app, Hs, Ho, Hz, IHs, IHo, IHz.
  cbn [synthesized opened sleeps flat_map app]. rewrite app_nil_r.
  now repeat split.
Qed.

(** X11. In the news branch, when every headline fetched is a string (or
    an object [speak] returns on, such as a [None] title), the program
    speaks "Fetching the top headlines." and then every headline in the
    order fetched, chunk by chunk, pauses 0.2 s after each headline, opens
    no URL and returns without reaching the error handler. *)
Theorem news_headlines_spoken (env : Env) (c : string) (h : trace)
    (headlines : list pyval) (t : trace) :
  is_empty (strip c) = false ->
  classify (lower (strip c)) = FetchNews ->
  get_headlines env (PStr "in") (PNum 5)
    (h ++ snd (speak env "Fetching the top headlines." h))
  = (Return headlines, t) ->
  forallb speakable headlines = true ->
  fst (processCommand env c h) = Return tt
  /\ synthesized (snd (processCommand env c h))
     = "Fetching the top headlines." :: flat_map headline_chunks headlines
  /\ sleeps (snd (processCommand env c h)) = map (fun _ => 200%Z) headlines
  /\ opened (snd (processCommand env c h)) = [].
Proof.
  intros Hc Hnews Hget Hall.
  set (announced := snd (speak env "Fetching the top headlines." h)) in *.
  unfold processCommand, try_except. rewrite Hc, dispatch_by_intent, Hnews.
  rewrite bind_speak. cbv beta. fold announced.
  rewrite (bind_run _ _ _ _ _ Hget).
  destruct (speak_headlines_run env headlines ((h ++ announced) ++ t) Hall)
    as (Hr & Hs & Ho & Hz).
  cbn [fst snd]. rewrite Hr. cbn [fst snd].
  destruct (speak_run env "Fetching the top headlines." h) as (_ & Hs0 & Ho0 & _).
  fold announced in Hs0, Ho0.
  pose proof (speak_sleeps env "Fetching the top headlines." h) as Hz0.
  fold announced in Hz0.
  assert (Ht : synthesized t = [] /\ opened t = [] /\ sleeps t = []).
  { destruct (get_headlines_trace env (PStr "in") (PNum 5) (h ++ announced))
      as (url & Hcases).
    rewrite Hget in Hcases. cbn [snd] in Hcases.
    destruct Hcases as [-> | [-> | [msg ->]]]; now repeat split. }
  destruct Ht as (Hst & Hot & Hzt).
  rewrite !synthesized_app, !opened_app, !sleeps_app.
  rewrite Hs0, Ho0, Hz0, Hst, Hot, Hzt, Hs, Ho, Hz.
  now repeat split.
Qed.

Lemma news_headlines_spoken_witness :
  synthesized (snd (processCommand newsroom "any NEWS today" []))
  = ["Fetching the top headlines."; "One."; "Two."; "Three."; "Four.";
     "Five."; "Six."; "Untitled."]
  /\ sleeps (snd (processCommand newsroom "any NEWS today" []))
     = [200; 200; 200; 200; 200; 200; 200]%Z.
Proof.
  destruct (news_headlines_spoken newsroom "any NEWS today" []
              (map title_of seven_articles) [HttpGet (news_url "k3y") 8]
              eq_refl eq_refl eq_refl eq_refl)
    as (_ & Hs & Hz & _).
  split; [exact Hs | exact Hz].
Defined.

(** ** What the chunker hands to synthesis *)

Lemma rstrip_idem (s : string) : rstrip (rstrip s) = rstrip s.
Proof.
  induction s as [|c s IH]; [reflexivity|].
  cbn [rstrip].
  destruct (isspace c && is_empty (rstrip s)) eqn:Hc; [reflexivity|].
  cbn [rstrip]. now rewrite IH, Hc.
Qed.

Lemma lstrip_fixed (s : string) :
  match s with EmptyString => true | String c _ => negb (isspace c) end = true ->
  lstrip s = s.
Proof.
  destruct s as [|c s]; [reflexivity|].
  cbn [lstrip]. intros Hc. apply negb_true_iff in Hc. now rewrite Hc.
Qed.

Lemma lstrip_head (s : string) :
  match lstrip s with
  | EmptyString => true
  | String c _ => negb (isspace c)
  end = true.
Proof.
  induction s as [|c s IH]; [reflexivity|].
  cbn [lstrip]. destruct (isspace c) eqn:Hc; [exact IH|].
  now rewrite Hc.
Qed.

Lemma rstrip_head (s : string) :
  match s with EmptyString => true | String c _ => negb (isspace c) end = true ->
  match rstrip s with
  | EmptyString => true
  | String c _ => negb (isspace c)
  end = true.
Proof.
  destruct s as [|c s]; [reflexivity|].
  cbn [rstrip]. intros Hc. apply negb_true_iff in Hc as Hc'.
  now rewrite Hc'.
Qed.

Lemma strip_idem (s : string) : strip (strip s) = strip s.
Proof.
  unfold strip.
  rewrite (lstrip_fixed (rstrip (lstrip s))).
  - apply rstrip_idem.
  - apply rstrip_head, lstrip_head.
Qed.

(** X12. Every text [speak] hands to synthesis is a chunk followed by
    one period, where the chunk is non-empty, neither begins nor ends with
    whitespace and contains no period: an empty or blank text, or one with
    a period inside, is never synthesized. *)
Theorem chunks_are_clean (env : Env) (text : string) (h : trace) :
  Forall
    (fun spoken =>
       exists c : string,
         spoken = (c ++ ".")%string
         /\ is_empty c = false /\ trimmed c = true /\ no_period c = true)
    (synthesized (snd (speak env text h))).
Proof.
  destruct (speak_run env text h) as (_ & -> & _).
  apply Forall_forall. intros spoken Hin.
  apply in_map_iff in Hin as (c & <- & Hc).
  exists c. split; [reflexivity|].
  unfold chunks in Hc. apply in_map_iff in Hc as (seg & <- & Hseg).
  apply filter_In in Hseg as [Hin Hne]. apply negb_true_iff in Hne.
  split; [exact Hne|]. split; [apply strip_trimmed|].
  pose proof (split_on_no_period text) as Hall.
  rewrite Forall_forall in Hall.
  unfold strip. apply rstrip_no_period, lstrip_no_period, Hall, Hin.
Qed.

(** ** The normalized key *)

Lemma no_ws_head (w : string) :
  is_word w = true ->
  match w with EmptyString => true | String c _ => negb (isspace c) end = true.
Proof.
  destruct w as [|c w]; [reflexivity|].
  unfold is_word. cbn. now intros H%andb_true_iff.
Qed.

Lemma rstrip_no_ws (w : string) : no_ws w = true -> rstrip w = w.
Proof.
  induction w as [|c w IH]; [reflexivity|].
  cbn [no_ws rstrip]. intros H. apply andb_true_iff in H as [Hc Hw].
  apply negb_true_iff in Hc. now rewrite Hc, IH.
Qed.

Lemma rstrip_app_word (s w : string) :
  is_word w = true -> rstrip (s ++ w)%string = (s ++ w)%string.
Proof.
  intros Hw. apply andb_true_iff in Hw as [Hne Hnw].
  induction s as [|c s IH]; [now apply rstrip_no_ws|].
  cbn [append rstrip]. rewrite IH.
  destruct (s ++ w)%string eqn:Hsw.
  - destruct s; [|discriminate]. cbn in Hsw. subst w. discriminate.
  - now rewrite andb_false_r.
Qed.

Lemma append_assoc3 (a b c : string) :
  ((a ++ b) ++ c)%string = (a ++ b ++ c)%string.
Proof. induction a as [|x a IH]; cbn; [reflexivity | now rewrite IH]. Qed.

Lemma join_words_stripped (ws : list string) :
  Forall (fun x => is_word x = true) ws ->
  strip (join " " ws) = join " " ws.
Proof.
  intros Hws. unfold strip.
  assert (Hl : lstrip (join " " ws) = join " " ws).
  { apply lstrip_fixed. destruct Hws as [|w ws Hw Hws]; [reflexivity|].
    pose proof (no_ws_head w Hw) as Hh.
    destruct ws as [|w' ws]; [exact Hh|].
    rewrite join_cons2. destruct w; [discriminate | exact Hh]. }
  rewrite Hl. clear Hl.
  induction Hws as [|w ws Hw Hws IH]; [reflexivity|].
  destruct ws as [|w' ws].
  - cbn [join]. rewrite <- (rstrip_app_word EmptyString w Hw) at 2. reflexivity.
  - rewrite join_cons2.
    assert (Hlast : exists s v, join " " (w' :: ws) = (s ++ v)%string
                                /\ is_word v = true).
    { clear IH Hw w. revert w' Hws.
      induction ws as [|w'' ws IHws]; intros w' Hws.
      - exists EmptyString, w'. split; [reflexivity | now inversion Hws].
      - inversion Hws as [|? ? Hw' Hws']; subst.
        destruct (IHws w'' Hws') as (s & v & Hs & Hv).
        exists (w' ++ " " ++ s)%string, v. split; [|exact Hv].
        rewrite join_cons2, Hs.
        now rewrite !append_assoc3. }
    destruct Hlast as (s & v & Hs & Hv). rewrite Hs.
    replace (w ++ " " ++ s ++ v)%string with ((w ++ " " ++ s) ++ v)%string
      by now rewrite !append_assoc3.
    now apply rstrip_app_word.
Qed.

(** X13. A normalized key is in canonical form: it is lower-case, has no
    leading or trailing whitespace, and its words are those of the
    lower-cased input, one space apart; it is empty exactly when the
    input has no word. *)
Theorem normalize_key_canonical (q : string) :
  lower (normalize_key q) = normalize_key q
  /\ strip (normalize_key q) = normalize_key q
  /\ split (normalize_key q) = split (lower q)
  /\ normalize_key q = join " " (map lower (split q))
  /\ (is_empty (normalize_key q) = true <-> split q = []).
Proof.
  unfold normalize_key. rewrite split_strip.
  pose proof (split_words (lower q)) as Hw.
  split; [|split; [|split; [|split]]].
  - now rewrite lower_join, <- split_lower, lower_idem.
  - now apply join_words_stripped.
  - now apply split_join.
  - now rewrite split_lower.
  - rewrite split_lower. destruct (split q) as [|w ws] eqn:Hq.
    + now split.
    + split; [|discriminate]. intros He.
      pose proof (split_words q) as Hwq. rewrite Hq in Hwq.
      inversion Hwq as [|? ? Hw1 _]; subst.
      destruct w as [|c w]; [discriminate|].
      destruct ws; discriminate.
Qed.

(** ** The listener *)

Lemma recognition_failed_returns {A : Type} (default : A) (e : exn)
    (H : list ear_event) :
  (fst (recognition_failed default e H) = Return default
   /\ synthesized (acts (snd (recognition_failed default e H))) = []
   /\ opened (acts (snd (recognition_failed default e H))) = [])
  \/ recognition_failed default e H = (Raise e, []).
Proof.
  destruct e as [cls]. unfold recognition_failed.
  destruct (String.eqb cls "UnknownValueError"); [left; now repeat split|].
  destruct (String.eqb cls "RequestError"); [left; now repeat split|].
  now right.
Qed.

(** X14. [listen_for_wakeword] never raises: it answers [True] exactly
    when calibration and capture succeed and the recognized text contains
    the wake word, letter case ignored, anywhere in it; every failure
    (calibration, capture, unintelligible speech, a request error, any other
    exception of recognition) gives [False].  It speaks nothing and opens
    nothing. *)
Theorem listen_for_wakeword_run (ears : Ears) (wakeword : string)
    (timeout : option Z) (phrase_time_limit : Z) (H : list ear_event) :
  let H1 := H ++ [Acted (Print "Adjusting for ambient noise... (1 sec)")] in
  let H2 := (H1 ++ [AdjustForAmbientNoise 1000])
            ++ [Acted (Print "Listening for wake word...")] in
  let H3 := H2 ++ [Listen timeout phrase_time_limit] in
  fst (listen_for_wakeword ears wakeword timeout phrase_time_limit H)
  = Return
      match ambient_fails ears H1 with
      | Some _ => false
      | None =>
          match listen ears H2 with
          | ListenRaises _ => false
          | Captured audio =>
              match recognize_google ears H3 audio with
              | Text text => str_in (lower wakeword) (lower text)
              | RecognizeRaises _ => false
              end
          end
      end
  /\ synthesized
       (acts (snd (listen_for_wakeword ears wakeword timeout
                     phrase_time_limit H))) = []
  /\ opened
       (acts (snd (listen_for_wakeword ears wakeword timeout
                     phrase_time_limit H))) = [].
Proof.
  intros H1 H2 H3.
  unfold listen_for_wakeword, try_exceptL, bindL, printL,
    adjust_for_ambient_noise, recognizer_listen, recognize, retL.
  fold H1. destruct (ambient_fails ears H1); [now repeat split|].
  fold H2. destruct (listen ears H2) as [e|audio]; [now repeat split|].
  fold H3. destruct (recognize_google ears H3 audio) as [[cls]|text];
    [|now repeat split].
  unfold recognition_failed, bindL, printL, retL, raiseL.
  destruct (String.eqb cls "UnknownValueError"); [now repeat split|].
  destruct (String.eqb cls "RequestError"); now repeat split.
Qed.

(** X15. [listen_for_command] never raises: it answers with the
    recognized text when calibration, capture and recognition succeed, and
    with [None] on every failure.  It speaks nothing and opens nothing. *)
Theorem listen_for_command_run (ears : Ears) (timeout : option Z)
    (phrase_time_limit : Z) (H : list ear_event) :
  let H1 := H ++ [AdjustForAmbientNoise 500] in
  let H2 := H1 ++ [Listen timeout phrase_time_limit] in
  fst (listen_for_command ears timeout phrase_time_limit H)
  = Return
      match ambient_fails ears H with
      | Some _ => None
      | None =>
          match listen ears H1 with
          | ListenRaises _ => None
          | Captured audio =>
              match recognize_google ears H2 audio with
              | Text text => Some text
              | RecognizeRaises _ => None
              end
          end
      end
  /\ synthesized
       (acts (snd (listen_for_command ears timeout phrase_time_limit H))) = []
  /\ opened
       (acts (snd (listen_for_command ears timeout phrase_time_limit H))) = [].
Proof.
  intros H1 H2.
  unfold listen_for_command, try_exceptL, bindL, printL,
    adjust_for_ambient_noise, recognizer_listen, recognize, retL.
  destruct (ambient_fails ears H); [now repeat split|].
  fold H1. destruct (listen ears H1) as [e|audio]; [now repeat split|].
  fold H2. destruct (recognize_google ears H2 audio) as [[cls]|text];
    [|now repeat split].
  unfold recognition_failed, bindL, printL, retL, raiseL.
  destruct (String.eqb cls "UnknownValueError"); [now repeat split|].
  destruct (String.eqb cls "RequestError"); now repeat split.
Qed.
